(** * attach_disk: request construction for [gcloud compute instances attach-disk]

    A shallow embedding of [lib/surface/compute/instances/attach_disk.py]:
    the argument schema declared by [_Args], the three command classes
    (one per release track) and [AttachDisk.Run], which builds one
    [ComputeInstancesAttachDiskRequest] and hands it to the API client. *)

From Stdlib Require Import Ascii String.
From stdpp Require Import base option list strings gmap.

Open Scope string_scope.
Open Scope list_scope.

(** ** Python values held by an [argparse.Namespace] *)

Inductive Value : Type :=
  | VNone
  | VBool (b : bool)
  | VStr (s : string).

#[global] Instance Value_eq_dec : EqDecision Value.
Proof. solve_decision. Defined.

(** Python's [==] on the values above. *)
Definition py_eq (v w : Value) : bool := bool_decide (v = w).

(** Python's truth value, as tested by [if] and [and]. *)
Definition truthy (v : Value) : bool :=
  match v with
  | VNone => false
  | VBool b => b
  | VStr s => negb (String.eqb s "")
  end.

(** ** Exceptions *)

Inductive Error : Type :=
  | MissingRequiredOption
  | InvalidEnumValue
  | ResourceResolutionError
  | UnsupportedKeyType
  | TransportError
  | AttributeError (attr : string)
  | ValidationError (field : string).

#[global] Instance Error_eq_dec : EqDecision Error.
Proof. solve_decision. Defined.

(** A computation that returns or raises. *)
Definition result (A : Type) : Type := Error + A.

Definition ok {A} (a : A) : result A := inr a.
Definition raise {A} (e : Error) : result A := inl e.

#[global] Instance result_ret : MRet result := fun _ a => inr a.
#[global] Instance result_bind : MBind result := fun _ _ f m =>
  match m with
  | inl e => inl e
  | inr a => f a
  end.

(** The four ways in which building the request can fail. *)
Definition construction_error (e : Error) : bool :=
  match e with
  | MissingRequiredOption | InvalidEnumValue
  | ResourceResolutionError | UnsupportedKeyType => true
  | _ => false
  end.

(** ** The namespace of parsed arguments *)

(** [args.name]: raises [AttributeError] when the parser never registered
    the destination. *)
Definition getattr (args : gmap string Value) (name : string) : result Value :=
  match args !! name with
  | Some v => ok v
  | None => raise (AttributeError name)
  end.

(** ** The argument schema *)

Inductive Action : Type := store | store_true.

Record Argument : Type := mkArgument {
  flag : string;
  action : Action;
  required : bool;
  choices : option (list string);
  default : option Value
}.

(** A parser is the list of arguments registered so far. *)
Definition add_argument (parser : list Argument) (a : Argument) : list Argument :=
  parser ++ [a].

(** The destination attribute of an optional flag: the leading dashes go,
    inner dashes become underscores. *)
Fixpoint strip_dashes (s : string) : string :=
  match s with
  | String "-"%char s' => strip_dashes s'
  | _ => s
  end.

Fixpoint dashes_to_underscores (s : string) : string :=
  match s with
  | EmptyString => EmptyString
  | String "-"%char s' => String "_"%char (dashes_to_underscores s')
  | String c s' => String c (dashes_to_underscores s')
  end.

Definition dest (a : Argument) : string :=
  dashes_to_underscores (strip_dashes (flag a)).

(** The value an argument takes when the flag is not given. *)
Definition default_value (a : Argument) : Value :=
  match default a, action a with
  | Some v, _ => v
  | None, store => VNone
  | None, store_true => VBool false
  end.

Definition MODE_OPTIONS : list (string * string) :=
  [ ("ro", "Read-only.");
    ("rw", "Read-write. It is an error to attach a disk in read-write mode to more than one instance.") ].

(** Modelled from the spec: [flags.AddDiskScopeFlag] is not part of the
    file; section 6 gives the flag as [--disk-scope {zonal|regional}],
    optional. *)
Definition AddDiskScopeFlag (parser : list Argument) : list Argument :=
  add_argument parser
    {| flag := "--disk-scope"; action := store; required := false;
       choices := Some ["zonal"; "regional"]; default := None |}.

(** Modelled from the spec: [csek_utils.AddCsekKeyArgs] is not part of the
    file; section 6 lists optional encryption-key arguments owned by the
    key store, here the one flag naming the caller's key file. *)
Definition AddCsekKeyArgs (parser : list Argument) : list Argument :=
  add_argument parser
    {| flag := "--csek-key-file"; action := store; required := false;
       choices := None; default := None |}.

(** [_Args]: the options [_Args] declares itself, with
    [parser.add_argument] and the two [Add...] helpers: those of all
    tracks, then the gated ones. Its first statement,
    [flags.INSTANCE_ARG.AddArgument(parser)], is left out of this list:
    the instance argument is declared and resolved by [flags.INSTANCE_ARG],
    which is not part of the file, and it reaches [Run] only through
    [ResolveAsResource] below. The list is therefore the schema of the
    options, not of the instance argument. *)
Definition _Args (parser : list Argument)
    (support_disk_scope support_force_attach support_boot : bool) : list Argument :=
  let parser := add_argument parser
    {| flag := "--device-name"; action := store; required := false;
       choices := None; default := None |} in
  let parser := add_argument parser
    {| flag := "--disk"; action := store; required := true;
       choices := None; default := None |} in
  let parser := add_argument parser
    {| flag := "--mode"; action := store; required := false;
       choices := Some (MODE_OPTIONS.*1); default := Some (VStr "rw") |} in
  let parser := if support_disk_scope then AddDiskScopeFlag parser else parser in
  let parser := if support_force_attach
    then add_argument parser
      {| flag := "--force-attach"; action := store_true; required := false;
         choices := None; default := Some (VBool false) |}
    else parser in
  let parser := if support_boot
    then add_argument parser
      {| flag := "--boot"; action := store_true; required := false;
         choices := None; default := None |}
    else parser in
  AddCsekKeyArgs parser.

(** ** Release tracks and the command classes *)

Inductive ReleaseTrack : Type := GA | BETA | ALPHA.

#[global] Instance ReleaseTrack_eq_dec : EqDecision ReleaseTrack.
Proof. solve_decision. Defined.

(** The classes [AttachDisk], [AttachDiskBeta(AttachDisk)] and
    [AttachDiskAlpha(AttachDiskBeta)]. *)
Inductive Command : Type := AttachDisk | AttachDiskBeta | AttachDiskAlpha.

(** [self.ReleaseTrack()], fixed by the class decorators. *)
Definition track_of (self : Command) : ReleaseTrack :=
  match self with
  | AttachDisk => GA
  | AttachDiskBeta => BETA
  | AttachDiskAlpha => ALPHA
  end.

(** The class registered for a track. *)
Definition command_of (track : ReleaseTrack) : Command :=
  match track with
  | GA => AttachDisk
  | BETA => AttachDiskBeta
  | ALPHA => AttachDiskAlpha
  end.

(** The static method [Args] of each class. *)
Definition Args (self : Command) (parser : list Argument) : list Argument :=
  match self with
  | AttachDisk => _Args parser false false false
  | AttachDiskBeta => _Args parser true true false
  | AttachDiskAlpha => _Args parser true true true
  end.

(** ** The option collector *)

(** What the caller typed: the operand of each option given with one, and
    the set of switches given bare. *)
Record Invocation : Type := mkInvocation {
  operands : gmap string string;
  switches : gset string
}.

(** Modelled from the spec: the parser behind [add_argument] is not part
    of the file. Section 4.1: a required option that is absent fails with
    [MissingRequiredOption], an operand outside the declared choices fails
    with [InvalidEnumValue] unless the default applies; an option the
    schema of the track does not declare is never read (section 4.3). *)
Definition parse_argument (inv : Invocation) (a : Argument) : result Value :=
  match action a with
  | store_true =>
      if bool_decide (flag a ∈ switches inv) then ok (VBool true)
      else ok (default_value a)
  | store =>
      match operands inv !! flag a with
      | Some s =>
          match choices a with
          | Some cs =>
              if bool_decide (s ∈ cs) then ok (VStr s) else raise InvalidEnumValue
          | None => ok (VStr s)
          end
      | None =>
          if required a then raise MissingRequiredOption
          else ok (default_value a)
      end
  end.

(** Modelled from the spec: the arguments are validated in the order of
    the schema and each value is stored under its destination. *)
Fixpoint parse_into (args : gmap string Value) (parser : list Argument)
    (inv : Invocation) : result (gmap string Value) :=
  match parser with
  | [] => ok args
  | a :: parser' =>
      v ← parse_argument inv a;
      parse_into (<[dest a := v]> args) parser' inv
  end.

Definition parse_args (parser : list Argument) (inv : Invocation)
    : result (gmap string Value) :=
  parse_into ∅ parser inv.

(** ** API messages

    Every field of a message is optional: a field that was never assigned,
    or was assigned [None], is absent from the request. *)

Inductive ModeValueValuesEnum : Type := READ_ONLY | READ_WRITE.

Inductive TypeValueValuesEnum : Type := PERSISTENT | SCRATCH.

Record CustomerEncryptionKey : Type := mkCustomerEncryptionKey {
  rawKey : option string;
  rsaEncryptedKey : option string
}.

Record AttachedDisk : Type := mkAttachedDisk {
  deviceName : option string;
  mode : option ModeValueValuesEnum;
  source : option string;
  type : option TypeValueValuesEnum;
  diskEncryptionKey : option CustomerEncryptionKey;
  boot : option bool
}.

Record ComputeInstancesAttachDiskRequest : Type := mkRequest {
  instance : option string;
  project : option string;
  attachedDisk : option AttachedDisk;
  zone : option string;
  forceAttach : option bool
}.

(** Assigning a Python value to a string field or to a boolean field:
    [None] clears the field, a value of the wrong type is refused. *)
Definition assign_string (field : string) (v : Value) : result (option string) :=
  match v with
  | VNone => ok None
  | VStr s => ok (Some s)
  | VBool _ => raise (ValidationError field)
  end.

Definition assign_boolean (field : string) (v : Value) : result (option bool) :=
  match v with
  | VNone => ok None
  | VBool b => ok (Some b)
  | VStr _ => raise (ValidationError field)
  end.

Definition set_boot (d : AttachedDisk) (b : option bool) : AttachedDisk :=
  {| deviceName := deviceName d; mode := mode d; source := source d;
     type := type d; diskEncryptionKey := diskEncryptionKey d; boot := b |}.

Definition set_forceAttach (r : ComputeInstancesAttachDiskRequest) (b : option bool)
    : ComputeInstancesAttachDiskRequest :=
  {| instance := instance r; project := project r;
     attachedDisk := attachedDisk r; zone := zone r; forceAttach := b |}.

(** ** Resources and keys *)

Inductive ScopeEnum : Type := ZONE | REGION.

(** The resolved instance: [Name()], [project] and [zone]. *)
Record InstanceRef : Type := mkInstanceRef {
  Name : string;
  ref_project : string;
  ref_zone : string
}.

Inductive KeyType : Type := raw | rsa_encrypted.

(** One entry of the caller's key file: the resource it is for, and the key. *)
Record CsekEntry : Type := mkCsekEntry {
  uri : string;
  key_type : KeyType;
  key : string
}.

Definition is_rsa (e : CsekEntry) : bool :=
  match key_type e with
  | rsa_encrypted => true
  | raw => false
  end.

Definition key_message (e : CsekEntry) : CustomerEncryptionKey :=
  match key_type e with
  | raw => {| rawKey := Some (key e); rsaEncryptedKey := None |}
  | rsa_encrypted => {| rawKey := None; rsaEncryptedKey := Some (key e) |}
  end.

(** ** Commands: an exception or a value, and the requests handed to the
    transport so far *)

Definition Cmd (A : Type) : Type :=
  list ComputeInstancesAttachDiskRequest →
  result A * list ComputeInstancesAttachDiskRequest.

#[global] Instance Cmd_ret : MRet Cmd := fun _ a sent => (inr a, sent).
#[global] Instance Cmd_bind : MBind Cmd := fun _ _ f m sent =>
  match m sent with
  | (inl e, sent') => (inl e, sent')
  | (inr a, sent') => f a sent'
  end.

(** A step that talks to nobody. *)
Definition pure {A} (r : result A) : Cmd A := fun sent => (r, sent).

Section Collaborators.

(** The disk reference and the API response are opaque. *)
Context {DiskRef Response : Type}.

Variable SelfLink : DiskRef → string.

(** [flags.INSTANCE_ARG.ResolveAsResource]. *)
Variable ResolveAsResource : gmap string Value → result InstanceRef.

(** [instance_utils.ParseDiskResource]: disk name, project, zone, scope. *)
Variable ParseDiskResource :
  Value → string → string → ScopeEnum → result DiskRef.

(** The contents of the key file at a path. *)
Variable ReadKeyFile : string → list CsekEntry.

(** The remote call made for one request. *)
Variable Transport : ComputeInstancesAttachDiskRequest → result Response.

(** [client.MakeRequests]: every request is handed over, in order. *)
Definition MakeRequests (requests : list ComputeInstancesAttachDiskRequest)
    : Cmd (list Response) :=
  fun sent => (mapM Transport requests, sent ++ requests).

(** Modelled from the spec: [csek_utils.CsekKeyStore.FromArgs] is not
    part of the file. Section 4.3, step 3: RSA-wrapped keys are included
    only when allowed, and a caller who supplies one when they are not
    fails with [UnsupportedKeyType]; without a key file there is no
    store. *)
Definition FromArgs (args : gmap string Value) (allow_rsa_encrypted : bool)
    : result (option (list CsekEntry)) :=
  csek_key_file ← getattr args "csek_key_file";
  match csek_key_file with
  | VStr path =>
      let keys := ReadKeyFile path in
      if negb allow_rsa_encrypted && existsb is_rsa keys
      then raise UnsupportedKeyType
      else ok (Some keys)
  | _ => ok None
  end.

(** Modelled from the spec: [csek_utils.MaybeLookupKeyMessage] is not
    part of the file. Section 4.3, step 3 and section 3: the key is
    looked up by disk reference; without a store, or without an entry
    for the disk, the result is [None]. *)
Definition MaybeLookupKeyMessage (csek_keys : option (list CsekEntry))
    (disk_ref : DiskRef) : option CustomerEncryptionKey :=
  keys ← csek_keys;
  e ← find (fun e => String.eqb (uri e) (SelfLink disk_ref)) keys;
  Some (key_message e).

(** [ParseDiskRef]: defined by [AttachDisk], overridden by
    [AttachDiskBeta], inherited by [AttachDiskAlpha]. *)
Definition ParseDiskRef (self : Command) (args : gmap string Value)
    (instance_ref : InstanceRef) : result DiskRef :=
  match self with
  | AttachDisk =>
      disk ← getattr args "disk";
      ParseDiskResource disk (ref_project instance_ref)
        (ref_zone instance_ref) ZONE
  | AttachDiskBeta | AttachDiskAlpha =>
      disk_scope ← getattr args "disk_scope";
      let scope :=
        if py_eq disk_scope (VStr "regional") then REGION else ZONE in
      disk ← getattr args "disk";
      ParseDiskResource disk (ref_project instance_ref)
        (ref_zone instance_ref) scope
  end.

(** [Run]: invokes a request for attaching a disk to an instance. *)
Definition Run (self : Command) (args : gmap string Value)
    : Cmd (list Response) :=
  instance_ref ← pure (ResolveAsResource args);
  disk_ref ← pure (ParseDiskRef self args instance_ref);
  args_mode ← pure (getattr args "mode");
  let mode :=
    if py_eq args_mode (VStr "rw") then READ_WRITE else READ_ONLY in
  let allow_rsa_encrypted :=
    bool_decide (track_of self ∈ [ALPHA; BETA]) in
  csek_keys ← pure (FromArgs args allow_rsa_encrypted);
  let disk_key_or_none := MaybeLookupKeyMessage csek_keys disk_ref in
  args_device_name ← pure (getattr args "device_name");
  device_name ← pure (assign_string "deviceName" args_device_name);
  let attached_disk :=
    {| deviceName := device_name;
       mode := Some mode;
       source := Some (SelfLink disk_ref);
       type := Some PERSISTENT;
       diskEncryptionKey := disk_key_or_none;
       boot := None |} in
  attached_disk ←
    (if bool_decide (track_of self = ALPHA)
     then
       args_boot ← pure (getattr args "boot");
       if truthy args_boot
       then
         b ← pure (assign_boolean "boot" args_boot);
         mret (set_boot attached_disk b)
       else mret attached_disk
     else mret attached_disk);
  let request :=
    {| instance := Some (Name instance_ref);
       project := Some (ref_project instance_ref);
       attachedDisk := Some attached_disk;
       zone := Some (ref_zone instance_ref);
       forceAttach := None |} in
  request ←
    (if bool_decide (track_of self ∈ [ALPHA; BETA])
     then
       args_force_attach ← pure (getattr args "force_attach");
       b ← pure (assign_boolean "forceAttach" args_force_attach);
       mret (set_forceAttach request b)
     else mret request);
  MakeRequests [request].

(** One invocation of the command: the framework builds the schema of
    the class with [Args], collects the options, and calls [Run]. *)
Definition Execute (self : Command) (inv : Invocation)
    : Cmd (list Response) :=
  args ← pure (parse_args (Args self []) inv);
  Run self args.

(** The requests an invocation hands to the transport. *)
Definition emitted (self : Command) (inv : Invocation)
    : list ComputeInstancesAttachDiskRequest :=
  (Execute self inv []).2.

(** How an invocation ends. *)
Definition outcome (self : Command) (inv : Invocation)
    : result (list Response) :=
  (Execute self inv []).1.

End Collaborators.

(** ** The request [Run] builds, without the transport *)

Section Construction.

Context {DiskRef : Type}.
Variable SelfLink : DiskRef → string.
Variable ResolveAsResource : gmap string Value → result InstanceRef.
Variable ParseDiskResource :
  Value → string → string → ScopeEnum → result DiskRef.
Variable ReadKeyFile : string → list CsekEntry.

(** The body of [Run] up to, and without, the call of [MakeRequests]: the
    same steps in the same order, each of which returns or raises.
    [Run_BuildRequest] proves that [Run] is this followed by the one call. *)
Definition BuildRequest (self : Command) (args : gmap string Value)
    : result ComputeInstancesAttachDiskRequest :=
  instance_ref ← ResolveAsResource args;
  disk_ref ← ParseDiskRef ParseDiskResource self args instance_ref;
  args_mode ← getattr args "mode";
  csek_keys ← FromArgs ReadKeyFile args
                 (bool_decide (track_of self ∈ [ALPHA; BETA]));
  args_device_name ← getattr args "device_name";
  device_name ← assign_string "deviceName" args_device_name;
  boot ←
    (if bool_decide (track_of self = ALPHA)
     then
       args_boot ← getattr args "boot";
       if truthy args_boot then assign_boolean "boot" args_boot else ok None
     else ok None);
  force_attach ←
    (if bool_decide (track_of self ∈ [ALPHA; BETA])
     then
       args_force_attach ← getattr args "force_attach";
       assign_boolean "forceAttach" args_force_attach
     else ok None);
  ok {| instance := Some (Name instance_ref);
        project := Some (ref_project instance_ref);
        attachedDisk := Some
          {| deviceName := device_name;
             mode := Some (if py_eq args_mode (VStr "rw")
                           then READ_WRITE else READ_ONLY);
             source := Some (SelfLink disk_ref);
             type := Some PERSISTENT;
             diskEncryptionKey :=
               MaybeLookupKeyMessage SelfLink csek_keys disk_ref;
             boot := boot |};
        zone := Some (ref_zone instance_ref);
        forceAttach := force_attach |}.

End Construction.

(** ** The assembled request, in closed form over the caller's options

    [Run_parsed] below proves that this is the request [Run] hands to the
    transport once the collaborators have answered. *)

Definition assembled (self : Command) (inv : Invocation)
    (instance_ref : InstanceRef) (link : string)
    (disk_key_or_none : option CustomerEncryptionKey)
    : ComputeInstancesAttachDiskRequest :=
  {| instance := Some (Name instance_ref);
     project := Some (ref_project instance_ref);
     attachedDisk := Some
       {| deviceName := operands inv !! "--device-name";
          mode := Some (if bool_decide (operands inv !! "--mode" = Some "ro")
                        then READ_ONLY else READ_WRITE);
          source := Some link;
          type := Some PERSISTENT;
          diskEncryptionKey := disk_key_or_none;
          boot := if bool_decide (track_of self = ALPHA ∧ "--boot" ∈ switches inv)
                  then Some true else None |};
     zone := Some (ref_zone instance_ref);
     forceAttach := if bool_decide (track_of self ∈ [ALPHA; BETA])
                    then Some (bool_decide ("--force-attach" ∈ switches inv))
                    else None |}.

(** ** Concrete collaborators, for running the model *)

Module Sample.

(** A disk reference: name, project, zone and scope. *)
Record DiskRef : Type := mkDiskRef {
  disk_name : string;
  disk_project : string;
  disk_zone : string;
  disk_scope : ScopeEnum
}.

Definition SelfLink (d : DiskRef) : string :=
  match disk_scope d with
  | ZONE => "zones/" ++ disk_zone d ++ "/disks/" ++ disk_name d
  | REGION => "regions/" ++ disk_zone d ++ "/disks/" ++ disk_name d
  end.

Definition ResolveAsResource (args : gmap string Value) : result InstanceRef :=
  ok {| Name := "example-instance"; ref_project := "my-project";
        ref_zone := "us-central1-a" |}.

(** The disk named [missing] does not resolve. *)
Definition ParseDiskResource (disk : Value) (project zone : string)
    (scope : ScopeEnum) : result DiskRef :=
  match disk with
  | VStr name =>
      if String.eqb name "missing" then raise ResourceResolutionError
      else ok {| disk_name := name; disk_project := project;
                 disk_zone := zone; disk_scope := scope |}
  | _ => raise ResourceResolutionError
  end.

(** [rsa.json] holds an RSA-wrapped key for the zonal disk [d1],
    [aes.json] a raw key for it. *)
Definition ReadKeyFile (path : string) : list CsekEntry :=
  if String.eqb path "rsa.json"
  then [ {| uri := "zones/us-central1-a/disks/d1";
            key_type := rsa_encrypted; key := "wrapped" |} ]
  else if String.eqb path "aes.json"
  then [ {| uri := "zones/us-central1-a/disks/d1";
            key_type := raw; key := "secret" |} ]
  else [].

(** The response is the name of the instance the request was for. *)
Definition Transport (r : ComputeInstancesAttachDiskRequest)
    : result (option string) :=
  ok (instance r).

(** A transport that is down. *)
Definition TransportDown (r : ComputeInstancesAttachDiskRequest)
    : result (option string) :=
  raise TransportError.

Definition Execute : Command → Invocation → Cmd (list (option string)) :=
  Execute SelfLink ResolveAsResource ParseDiskResource ReadKeyFile Transport.

Definition emitted : Command → Invocation → list ComputeInstancesAttachDiskRequest :=
  emitted SelfLink ResolveAsResource ParseDiskResource ReadKeyFile Transport.

Definition outcome : Command → Invocation → result (list (option string)) :=
  outcome SelfLink ResolveAsResource ParseDiskResource ReadKeyFile Transport.

(** [attach-disk example-instance --disk d1] *)
Definition inv_d1 : Invocation :=
  {| operands := {[ "--disk" := "d1" ]}; switches := ∅ |}.

(** [... --disk d1 --mode ro --device-name sdb --force-attach --boot
    --disk-scope regional] *)
Definition inv_full : Invocation :=
  {| operands := {[ "--disk" := "d1"; "--mode" := "ro";
                    "--device-name" := "sdb";
                    "--disk-scope" := "regional" ]};
     switches := {[ "--force-attach"; "--boot" ]} |}.

(** [... --disk d1 --csek-key-file rsa.json] *)
Definition inv_rsa : Invocation :=
  {| operands := {[ "--disk" := "d1"; "--csek-key-file" := "rsa.json" ]};
     switches := ∅ |}.

(** [... --disk d1 --csek-key-file aes.json] *)
Definition inv_aes : Invocation :=
  {| operands := {[ "--disk" := "d1"; "--csek-key-file" := "aes.json" ]};
     switches := ∅ |}.

(** [... --mode ro], no disk. *)
Definition inv_no_disk : Invocation :=
  {| operands := {[ "--mode" := "ro" ]}; switches := ∅ |}.

(** [... --disk d1 --mode wo] *)
Definition inv_bad_mode : Invocation :=
  {| operands := {[ "--disk" := "d1"; "--mode" := "wo" ]}; switches := ∅ |}.

(** [... --disk missing] *)
Definition inv_missing : Invocation :=
  {| operands := {[ "--disk" := "missing" ]}; switches := ∅ |}.

Definition Run : Command → gmap string Value → Cmd (list (option string)) :=
  Run SelfLink ResolveAsResource ParseDiskResource ReadKeyFile Transport.

(** The namespace the collector builds, empty when it rejects. *)
Definition args_of (self : Command) (inv : Invocation) : gmap string Value :=
  match parse_args (Args self []) inv with
  | inr args => args
  | inl _ => ∅
  end.

Definition example_instance : InstanceRef :=
  {| Name := "example-instance"; ref_project := "my-project";
     ref_zone := "us-central1-a" |}.

Definition zonal_d1 : DiskRef :=
  {| disk_name := "d1"; disk_project := "my-project";
     disk_zone := "us-central1-a"; disk_scope := ZONE |}.

(** What GA sends for [inv_d1]. *)
Definition request_ga : ComputeInstancesAttachDiskRequest :=
  {| instance := Some "example-instance"; project := Some "my-project";
     attachedDisk := Some
       {| deviceName := None; mode := Some READ_WRITE;
          source := Some "zones/us-central1-a/disks/d1";
          type := Some PERSISTENT; diskEncryptionKey := None;
          boot := None |};
     zone := Some "us-central1-a"; forceAttach := None |}.

(** What BETA sends for [inv_full]. *)
Definition request_beta : ComputeInstancesAttachDiskRequest :=
  {| instance := Some "example-instance"; project := Some "my-project";
     attachedDisk := Some
       {| deviceName := Some "sdb"; mode := Some READ_ONLY;
          source := Some "regions/us-central1-a/disks/d1";
          type := Some PERSISTENT; diskEncryptionKey := None;
          boot := None |};
     zone := Some "us-central1-a"; forceAttach := Some true |}.

(** What ALPHA sends for [inv_full]. *)
Definition request_alpha : ComputeInstancesAttachDiskRequest :=
  {| instance := Some "example-instance"; project := Some "my-project";
     attachedDisk := Some
       {| deviceName := Some "sdb"; mode := Some READ_ONLY;
          source := Some "regions/us-central1-a/disks/d1";
          type := Some PERSISTENT; diskEncryptionKey := None;
          boot := Some true |};
     zone := Some "us-central1-a"; forceAttach := Some true |}.

(** What BETA sends for [inv_rsa]. *)
Definition request_beta_rsa : ComputeInstancesAttachDiskRequest :=
  {| instance := Some "example-instance"; project := Some "my-project";
     attachedDisk := Some
       {| deviceName := None; mode := Some READ_WRITE;
          source := Some "zones/us-central1-a/disks/d1";
          type := Some PERSISTENT;
          diskEncryptionKey :=
            Some {| rawKey := None; rsaEncryptedKey := Some "wrapped" |};
          boot := None |};
     zone := Some "us-central1-a"; forceAttach := Some false |}.

End Sample.

(** ** The collector on concrete invocations *)

Example dest_device_name :
  dest {| flag := "--device-name"; action := store; required := false;
          choices := None; default := None |} = "device_name".
Proof. reflexivity. Qed.

Example parse_GA_defaults :
  parse_args (Args AttachDisk [])
    {| operands := {[ "--disk" := "d1" ]}; switches := ∅ |}
  = ok (<[ "csek_key_file" := VNone ]>
       (<[ "mode" := VStr "rw" ]>
       (<[ "disk" := VStr "d1" ]>
       (<[ "device_name" := VNone ]> ∅)))).
Proof. vm_compute. reflexivity. Qed.

(** ** The option collector: what a successful parse stores *)

Lemma parse_into_other parser : ∀ (args0 : gmap string Value) inv args d,
  d ∉ dest <$> parser →
  parse_into args0 parser inv = ok args →
  args !! d = args0 !! d.
Proof.
  induction parser as [|a parser IH]; intros args0 inv args d Hd Hp.
  - injection Hp as <-. reflexivity.
  - cbn [parse_into] in Hp. rewrite fmap_cons, not_elem_of_cons in Hd.
    destruct Hd as [Hne Hd].
    destruct (parse_argument inv a) as [e|v]; [discriminate|].
    cbn in Hp. rewrite (IH _ _ _ _ Hd Hp).
    apply lookup_insert_ne. congruence.
Qed.

Lemma parse_into_lookup parser : ∀ (args0 : gmap string Value) inv args a,
  NoDup (dest <$> parser) →
  parse_into args0 parser inv = ok args →
  a ∈ parser →
  ∃ v, parse_argument inv a = ok v ∧ args !! dest a = Some v.
Proof.
  induction parser as [|a' parser IH]; intros args0 inv args a Hnd Hp Hin.
  - inversion Hin.
  - cbn [parse_into] in Hp. rewrite fmap_cons, NoDup_cons in Hnd.
    destruct Hnd as [Hfresh Hnd].
    destruct (parse_argument inv a') as [e|v] eqn:Ha'; [discriminate|].
    cbn in Hp. apply elem_of_cons in Hin as [->|Hin].
    + exists v. split; [exact Ha'|].
      rewrite (parse_into_other _ _ _ _ _ Hfresh Hp).
      apply lookup_insert_eq.
    + eapply IH; eassumption.
Qed.

Lemma parse_into_raise parser : ∀ (args0 : gmap string Value) inv e,
  parse_into args0 parser inv = raise e →
  ∃ a, a ∈ parser ∧ parse_argument inv a = raise e.
Proof.
  induction parser as [|a parser IH]; intros args0 inv e Hp.
  - discriminate.
  - cbn [parse_into] in Hp.
    destruct (parse_argument inv a) as [e'|v] eqn:Ha.
    + exists a. split; [left|]. cbn in Hp. rewrite Ha. unfold raise in *. congruence.
    + cbn in Hp. destruct (IH _ _ _ Hp) as (b & Hb & Hpb).
      exists b. split; [right|]; assumption.
Qed.

Lemma parse_into_total parser : ∀ (args0 : gmap string Value) inv,
  (∀ a, a ∈ parser → ∃ v, parse_argument inv a = ok v) →
  ∃ args, parse_into args0 parser inv = ok args.
Proof.
  induction parser as [|a parser IH]; intros args0 inv Hall.
  - exists args0. reflexivity.
  - destruct (Hall a) as [v Hv]; [left|].
    cbn [parse_into]. rewrite Hv. cbn.
    apply IH. intros b Hb. apply Hall. right. exact Hb.
Qed.

Lemma parse_into_app p1 : ∀ p2 (args0 : gmap string Value) inv,
  parse_into args0 (p1 ++ p2) inv
  = (args1 ← parse_into args0 p1 inv; parse_into args1 p2 inv).
Proof.
  induction p1 as [|a p1 IH]; intros p2 args0 inv.
  - reflexivity.
  - cbn [app parse_into]. destruct (parse_argument inv a) as [e|v]; [reflexivity|].
    cbn. apply IH.
Qed.

(** The collector raises nothing but its two errors. *)
Lemma parse_argument_raises inv a e :
  parse_argument inv a = raise e →
  e = MissingRequiredOption ∨ e = InvalidEnumValue.
Proof.
  unfold parse_argument, raise, ok.
  repeat case_match; intros [= <-]; auto.
Qed.

(** ** The schema of each class *)

Lemma Args_NoDup self : NoDup (dest <$> Args self []).
Proof.
  destruct self; apply (bool_decide_unpack _); vm_compute; reflexivity.
Qed.

Ltac schema_member :=
  match goal with
  | self : Command |- _ ∈ Args ?c [] =>
      try destruct self; try discriminate; try congruence;
      vm_compute; repeat constructor
  | |- _ ∈ Args ?c [] => vm_compute; repeat constructor
  end.

Ltac reduce_argument H :=
  unfold parse_argument, default_value in H;
  cbn [action flag required choices default] in H.

Lemma parsed_attr self inv args a :
  parse_args (Args self []) inv = ok args →
  a ∈ Args self [] →
  ∃ v, parse_argument inv a = ok v ∧ args !! dest a = Some v.
Proof.
  intros Hp Hin. eapply parse_into_lookup; eauto using Args_NoDup.
Qed.

Lemma parsed_absent self inv args d :
  parse_args (Args self []) inv = ok args →
  d ∉ dest <$> Args self [] →
  args !! d = None.
Proof.
  intros Hp Hd. unfold parse_args in Hp.
  rewrite (parse_into_other _ _ _ _ _ Hd Hp). apply lookup_empty.
Qed.

Lemma parsed_disk self inv args :
  parse_args (Args self []) inv = ok args →
  ∃ disk, operands inv !! "--disk" = Some disk ∧ args !! "disk" = Some (VStr disk).
Proof.
  intros Hp.
  destruct (parsed_attr self inv args
    {| flag := "--disk"; action := store; required := true;
       choices := None; default := None |} Hp) as (v & Hv & Hl);
    [schema_member|].
  reduce_argument Hv.
  destruct (operands inv !! "--disk") as [disk|]; [|discriminate].
  injection Hv as <-. exists disk. split; [reflexivity|exact Hl].
Qed.

Lemma parsed_device_name self inv args :
  parse_args (Args self []) inv = ok args →
  args !! "device_name"
  = Some (from_option VStr VNone (operands inv !! "--device-name")).
Proof.
  intros Hp.
  destruct (parsed_attr self inv args
    {| flag := "--device-name"; action := store; required := false;
       choices := None; default := None |} Hp) as (v & Hv & Hl);
    [schema_member|].
  reduce_argument Hv.
  destruct (operands inv !! "--device-name"); injection Hv as <-; exact Hl.
Qed.

Lemma parsed_csek_key_file self inv args :
  parse_args (Args self []) inv = ok args →
  args !! "csek_key_file"
  = Some (from_option VStr VNone (operands inv !! "--csek-key-file")).
Proof.
  intros Hp.
  destruct (parsed_attr self inv args
    {| flag := "--csek-key-file"; action := store; required := false;
       choices := None; default := None |} Hp) as (v & Hv & Hl);
    [schema_member|].
  reduce_argument Hv.
  destruct (operands inv !! "--csek-key-file"); injection Hv as <-; exact Hl.
Qed.

Lemma parsed_mode self inv args :
  parse_args (Args self []) inv = ok args →
  (operands inv !! "--mode" = None ∧ args !! "mode" = Some (VStr "rw")) ∨
  (operands inv !! "--mode" = Some "rw" ∧ args !! "mode" = Some (VStr "rw")) ∨
  (operands inv !! "--mode" = Some "ro" ∧ args !! "mode" = Some (VStr "ro")).
Proof.
  intros Hp.
  destruct (parsed_attr self inv args
    {| flag := "--mode"; action := store; required := false;
       choices := Some (MODE_OPTIONS.*1); default := Some (VStr "rw") |} Hp)
    as (v & Hv & Hl); [schema_member|].
  reduce_argument Hv.
  destruct (operands inv !! "--mode") as [m|].
  - case_bool_decide as Hm; [|discriminate]. injection Hv as <-.
    right. cbn in Hm. rewrite !elem_of_cons in Hm.
    destruct Hm as [->| [->|Hm]]; [right|left|inversion Hm]; split;
      first [reflexivity | exact Hl].
  - injection Hv as <-. left. split; [reflexivity | exact Hl].
Qed.

Lemma parsed_disk_scope self inv args :
  parse_args (Args self []) inv = ok args →
  self ≠ AttachDisk →
  args !! "disk_scope"
  = Some (from_option VStr VNone (operands inv !! "--disk-scope")).
Proof.
  intros Hp Hself.
  destruct (parsed_attr self inv args
    {| flag := "--disk-scope"; action := store; required := false;
       choices := Some ["zonal"; "regional"]; default := None |} Hp)
    as (v & Hv & Hl); [schema_member|].
  reduce_argument Hv.
  destruct (operands inv !! "--disk-scope") as [m|].
  - case_bool_decide; [|discriminate]. injection Hv as <-. exact Hl.
  - injection Hv as <-. exact Hl.
Qed.

Lemma parsed_force_attach self inv args :
  parse_args (Args self []) inv = ok args →
  self ≠ AttachDisk →
  args !! "force_attach"
  = Some (VBool (bool_decide ("--force-attach" ∈ switches inv))).
Proof.
  intros Hp Hself.
  destruct (parsed_attr self inv args
    {| flag := "--force-attach"; action := store_true; required := false;
       choices := None; default := Some (VBool false) |} Hp)
    as (v & Hv & Hl); [schema_member|].
  reduce_argument Hv.
  case_bool_decide; injection Hv as <-; exact Hl.
Qed.

Lemma parsed_boot inv args :
  parse_args (Args AttachDiskAlpha []) inv = ok args →
  args !! "boot" = Some (VBool (bool_decide ("--boot" ∈ switches inv))).
Proof.
  intros Hp.
  destruct (parsed_attr AttachDiskAlpha inv args
    {| flag := "--boot"; action := store_true; required := false;
       choices := None; default := None |} Hp)
    as (v & Hv & Hl); [schema_member|].
  reduce_argument Hv.
  case_bool_decide; injection Hv as <-; exact Hl.
Qed.

(** Under GA the gated destinations do not exist. *)
Lemma parsed_GA_absent inv args :
  parse_args (Args AttachDisk []) inv = ok args →
  args !! "disk_scope" = None ∧ args !! "force_attach" = None
  ∧ args !! "boot" = None.
Proof.
  intros Hp. repeat split; eapply parsed_absent; eauto;
    apply (bool_decide_unpack _); vm_compute; reflexivity.
Qed.

(** The arguments of all tracks come first: [--device-name], [--disk],
    [--mode]. *)
Lemma Args_common self :
  ∃ rest, Args self [] =
    [ {| flag := "--device-name"; action := store; required := false;
         choices := None; default := None |};
      {| flag := "--disk"; action := store; required := true;
         choices := None; default := None |};
      {| flag := "--mode"; action := store; required := false;
         choices := Some ["ro"; "rw"]; default := Some (VStr "rw") |} ] ++ rest.
Proof. destruct self; eexists; reflexivity. Qed.

Lemma parse_device_name inv :
  ∃ v, parse_argument inv
    {| flag := "--device-name"; action := store; required := false;
       choices := None; default := None |} = ok v.
Proof.
  unfold parse_argument. cbn [action flag required choices default].
  destruct (operands inv !! "--device-name"); eauto.
Qed.

Lemma parse_disk inv :
  parse_argument inv
    {| flag := "--disk"; action := store; required := true;
       choices := None; default := None |}
  = match operands inv !! "--disk" with
    | Some disk => ok (VStr disk)
    | None => raise MissingRequiredOption
    end.
Proof. reflexivity. Qed.

Lemma parse_mode inv :
  parse_argument inv
    {| flag := "--mode"; action := store; required := false;
       choices := Some ["ro"; "rw"]; default := Some (VStr "rw") |}
  = match operands inv !! "--mode" with
    | Some m =>
        if bool_decide (m ∈ ["ro"; "rw"]) then ok (VStr m)
        else raise InvalidEnumValue
    | None => ok (VStr "rw")
    end.
Proof. reflexivity. Qed.

Lemma parse_args_no_disk self inv :
  operands inv !! "--disk" = None →
  parse_args (Args self []) inv = raise MissingRequiredOption.
Proof.
  intros Hd. destruct (Args_common self) as [rest ->].
  unfold parse_args. rewrite parse_into_app.
  cbn [parse_into]. destruct (parse_device_name inv) as [v ->].
  rewrite parse_disk, Hd. reflexivity.
Qed.

Lemma parse_args_bad_mode self inv disk m :
  operands inv !! "--disk" = Some disk →
  operands inv !! "--mode" = Some m →
  m ≠ "ro" → m ≠ "rw" →
  parse_args (Args self []) inv = raise InvalidEnumValue.
Proof.
  intros Hd Hm Hro Hrw. destruct (Args_common self) as [rest ->].
  unfold parse_args. rewrite parse_into_app.
  assert (Hbad : bool_decide (m ∈ ["ro"; "rw"]) = false).
  { apply bool_decide_eq_false_2. rewrite !elem_of_cons, elem_of_nil. tauto. }
  cbn [parse_into]. destruct (parse_device_name inv) as [v ->].
  rewrite parse_disk, Hd, parse_mode, Hm, Hbad. reflexivity.
Qed.

Lemma parse_args_accepts self inv disk :
  operands inv !! "--disk" = Some disk →
  operands inv !! "--mode" = None ∨ operands inv !! "--mode" = Some "ro"
    ∨ operands inv !! "--mode" = Some "rw" →
  track_of self = GA ∨ operands inv !! "--disk-scope" = None
    ∨ operands inv !! "--disk-scope" = Some "zonal"
    ∨ operands inv !! "--disk-scope" = Some "regional" →
  ∃ args, parse_args (Args self []) inv = ok args.
Proof.
  intros Hd Hm Hs. apply parse_into_total. intros a Ha.
  unfold parse_argument.
  destruct self; cbn [track_of] in Hs;
    unfold Args, _Args, AddCsekKeyArgs, AddDiskScopeFlag, add_argument in Ha;
    cbn [app] in Ha; rewrite !elem_of_cons, elem_of_nil in Ha;
    destruct_or!; try contradiction; try discriminate; subst a;
    cbn [action flag required choices default];
    rewrite ?Hd; try (repeat case_match; eauto; fail).
  all: change (MODE_OPTIONS.*1) with ["ro"; "rw"].
  all: first [ rewrite Hm | rewrite Hs ]; eauto.
Qed.

(** ** The release-track gates *)

Lemma gate_force self :
  bool_decide (track_of self ∈ [ALPHA; BETA])
  = match self with AttachDisk => false | _ => true end.
Proof. destruct self; vm_compute; reflexivity. Qed.

(** Classes and tracks correspond one to one. *)
Lemma track_of_command_of track : track_of (command_of track) = track.
Proof. destruct track; reflexivity. Qed.

Lemma command_of_track_of self : command_of (track_of self) = self.
Proof. destruct self; reflexivity. Qed.

Lemma gate_boot self :
  bool_decide (track_of self = ALPHA)
  = match self with AttachDiskAlpha => true | _ => false end.
Proof. destruct self; vm_compute; reflexivity. Qed.

(** ** Running the command on collected options *)

Section Properties.

Context {DiskRef Response : Type}.
Variable SelfLink : DiskRef → string.
Variable ResolveAsResource : gmap string Value → result InstanceRef.
Variable ParseDiskResource :
  Value → string → string → ScopeEnum → result DiskRef.
Variable ReadKeyFile : string → list CsekEntry.
Variable Transport : ComputeInstancesAttachDiskRequest → result Response.

Local Abbreviation MaybeLookupKeyMessage := (MaybeLookupKeyMessage SelfLink).
Local Abbreviation ParseDiskRef := (ParseDiskRef ParseDiskResource).
Local Abbreviation FromArgs := (FromArgs ReadKeyFile).
Local Abbreviation Run :=
  (Run SelfLink ResolveAsResource ParseDiskResource ReadKeyFile Transport).
Local Abbreviation Execute :=
  (Execute SelfLink ResolveAsResource ParseDiskResource ReadKeyFile Transport).
Local Abbreviation emitted :=
  (emitted SelfLink ResolveAsResource ParseDiskResource ReadKeyFile Transport).
Local Abbreviation outcome :=
  (outcome SelfLink ResolveAsResource ParseDiskResource ReadKeyFile Transport).

Lemma bind_pure {A B} (r : result A) (f : A → Cmd B) sent :
  (pure r ≫= f) sent
  = match r with inl e => (inl e, sent) | inr a => f a sent end.
Proof. destruct r; reflexivity. Qed.

Lemma bind_assoc {A B C} (m : Cmd A) (f : A → Cmd B) (g : B → Cmd C) sent :
  ((m ≫= f) ≫= g) sent = (m ≫= λ a, f a ≫= g) sent.
Proof.
  unfold mbind, Cmd_bind. destruct (m sent) as [[e|a] sent']; reflexivity.
Qed.

Lemma bind_mret {A B} (a : A) (f : A → Cmd B) sent :
  (mret a ≫= f) sent = f a sent.
Proof. reflexivity. Qed.

Ltac cmd_step :=
  first [ rewrite bind_assoc | rewrite bind_mret | rewrite bind_pure ];
  cbv beta.

Lemma Run_parsed self inv args sent :
  parse_args (Args self []) inv = ok args →
  Run self args sent =
    match ResolveAsResource args with
    | inl e => (inl e, sent)
    | inr instance_ref =>
      match ParseDiskRef self args instance_ref with
      | inl e => (inl e, sent)
      | inr disk_ref =>
        match FromArgs args (bool_decide (track_of self ∈ [ALPHA; BETA])) with
        | inl e => (inl e, sent)
        | inr csek_keys =>
            let request := assembled self inv instance_ref (SelfLink disk_ref)
              (MaybeLookupKeyMessage csek_keys disk_ref) in
            (mapM Transport [request], sent ++ [request])
        end
      end
    end.
Proof.
  intros Hp. unfold Run.
  rewrite bind_pure. destruct (ResolveAsResource args) as [e|iref]; [reflexivity|].
  rewrite bind_pure. destruct (ParseDiskRef self args iref) as [e|dref]; [reflexivity|].
  assert (Hmode : ∃ m, args !! "mode" = Some (VStr m) ∧
    (if py_eq (VStr m) (VStr "rw") then READ_WRITE else READ_ONLY)
    = (if bool_decide (operands inv !! "--mode" = Some "ro")
       then READ_ONLY else READ_WRITE)).
  { destruct (parsed_mode _ _ _ Hp) as [[Hm Ha]|[[Hm Ha]|[Hm Ha]]];
      eexists; (split; [exact Ha|]); rewrite Hm; reflexivity. }
  destruct Hmode as (m & Ha & Hm).
  rewrite bind_pure. unfold getattr at 1. rewrite Ha. cbn [ok].
  rewrite bind_pure.
  destruct (FromArgs args _) as [e|keys]; [reflexivity|].
  rewrite bind_pure. unfold getattr at 1.
  rewrite (parsed_device_name _ _ _ Hp). cbn [ok].
  rewrite bind_pure.
  assert (Hdev : assign_string "deviceName"
      (from_option VStr VNone (operands inv !! "--device-name"))
    = ok (operands inv !! "--device-name"))
    by (destruct (operands inv !! "--device-name"); reflexivity).
  rewrite Hdev. cbn [ok]. rewrite Hm. clear Hdev Hm Ha m.
  unfold assembled. cbn zeta.
  rewrite !gate_force, gate_boot.
  destruct self; cbv beta iota.
  - (* GA: neither gated field is touched *)
    rewrite (bool_decide_eq_false_2 (track_of AttachDisk = ALPHA ∧ _))
      by (intros [? _]; discriminate).
    reflexivity.
  - (* BETA: forceAttach is assigned *)
    rewrite (bool_decide_eq_false_2 (track_of AttachDiskBeta = ALPHA ∧ _))
      by (intros [? _]; discriminate).
    repeat cmd_step. unfold getattr.
    rewrite (parsed_force_attach _ _ _ Hp) by discriminate.
    reflexivity.
  - (* ALPHA: boot when requested, forceAttach always *)
    repeat cmd_step. unfold getattr at 1.
    rewrite (parsed_boot _ _ Hp). cbn [ok truthy].
    destruct (decide ("--boot" ∈ switches inv)) as [Hb|Hb].
    + rewrite (bool_decide_eq_true_2 ("--boot" ∈ switches inv)) by exact Hb.
      rewrite (bool_decide_eq_true_2 (track_of AttachDiskAlpha = ALPHA ∧ _))
        by (split; [reflexivity|exact Hb]).
      cbv beta iota. repeat cmd_step. cbn [assign_boolean ok].
      cbv beta iota. repeat cmd_step. unfold getattr.
      rewrite (parsed_force_attach _ _ _ Hp) by discriminate.
      reflexivity.
    + rewrite (bool_decide_eq_false_2 ("--boot" ∈ switches inv)) by exact Hb.
      rewrite (bool_decide_eq_false_2 (track_of AttachDiskAlpha = ALPHA ∧ _))
        by (intros [_ ?]; contradiction).
      cbv beta iota. repeat cmd_step.
      unfold getattr.
      rewrite (parsed_force_attach _ _ _ Hp) by discriminate.
      reflexivity.
Qed.

Lemma ParseDiskRef_parsed self inv args instance_ref :
  parse_args (Args self []) inv = ok args →
  ∃ disk, operands inv !! "--disk" = Some disk ∧
    ParseDiskRef self args instance_ref
    = ParseDiskResource (VStr disk) (ref_project instance_ref)
        (ref_zone instance_ref)
        (match self with
         | AttachDisk => ZONE
         | _ => if bool_decide (operands inv !! "--disk-scope" = Some "regional")
                then REGION else ZONE
         end).
Proof.
  intros Hp. destruct (parsed_disk _ _ _ Hp) as (disk & Hd & Ha).
  exists disk. split; [exact Hd|].
  assert (Hscope : self ≠ AttachDisk →
    getattr args "disk_scope"
    = ok (from_option VStr VNone (operands inv !! "--disk-scope"))).
  { intros Hs. unfold getattr. rewrite (parsed_disk_scope _ _ _ Hp Hs). reflexivity. }
  assert (Hreg : (if py_eq (from_option VStr VNone (operands inv !! "--disk-scope"))
                     (VStr "regional") then REGION else ZONE)
    = (if bool_decide (operands inv !! "--disk-scope" = Some "regional")
       then REGION else ZONE)).
  { unfold py_eq. destruct (operands inv !! "--disk-scope") as [s|]; cbn [from_option];
      repeat case_bool_decide; congruence. }
  unfold ParseDiskRef.
  destruct self; [| rewrite Hscope by discriminate ..]; cbn [mbind result_bind ok];
    unfold getattr; rewrite Ha; cbn [ok]; rewrite ?Hreg; reflexivity.
Qed.

Lemma FromArgs_parsed self inv args allow_rsa_encrypted :
  parse_args (Args self []) inv = ok args →
  FromArgs args allow_rsa_encrypted
  = match operands inv !! "--csek-key-file" with
    | Some path =>
        if negb allow_rsa_encrypted && existsb is_rsa (ReadKeyFile path)
        then raise UnsupportedKeyType
        else ok (Some (ReadKeyFile path))
    | None => ok None
    end.
Proof.
  intros Hp. unfold FromArgs, getattr.
  rewrite (parsed_csek_key_file _ _ _ Hp).
  destruct (operands inv !! "--csek-key-file"); reflexivity.
Qed.

Lemma Execute_unfold self inv sent :
  Execute self inv sent
  = match parse_args (Args self []) inv with
    | inl e => (inl e, sent)
    | inr args => Run self args sent
    end.
Proof. unfold Execute. apply bind_pure. Qed.

(** Every way an invocation can go: one of the four steps before the
    request raises and nothing is sent, or exactly the assembled request
    is handed over. *)
Lemma Execute_cases self inv sent :
  (∃ e, Execute self inv sent = (raise e, sent) ∧
     (parse_args (Args self []) inv = raise e ∨
      ∃ args, parse_args (Args self []) inv = ok args ∧
        (ResolveAsResource args = raise e ∨
         ∃ instance_ref, ResolveAsResource args = ok instance_ref ∧
           (ParseDiskRef self args instance_ref = raise e ∨
            FromArgs args (bool_decide (track_of self ∈ [ALPHA; BETA]))
            = raise e))))
  ∨
  (∃ args instance_ref disk_ref csek_keys,
     parse_args (Args self []) inv = ok args ∧
     ResolveAsResource args = ok instance_ref ∧
     ParseDiskRef self args instance_ref = ok disk_ref ∧
     FromArgs args (bool_decide (track_of self ∈ [ALPHA; BETA])) = ok csek_keys ∧
     let request := assembled self inv instance_ref (SelfLink disk_ref)
                      (MaybeLookupKeyMessage csek_keys disk_ref) in
     Execute self inv sent = (mapM Transport [request], sent ++ [request])).
Proof.
  rewrite Execute_unfold.
  destruct (parse_args (Args self []) inv) as [e|args] eqn:Hp.
  { left. exists e. split; [reflexivity|]. left. reflexivity. }
  rewrite (Run_parsed _ _ _ _ Hp).
  destruct (ResolveAsResource args) as [e|iref] eqn:Hr.
  { left. exists e. split; [reflexivity|]. right. exists args. auto. }
  destruct (ParseDiskRef self args iref) as [e|dref] eqn:Hd.
  { left. exists e. split; [reflexivity|]. right. exists args.
    split; [reflexivity|]. right. exists iref. auto. }
  destruct (FromArgs args _) as [e|keys] eqn:Hk.
  { left. exists e. split; [reflexivity|]. right. exists args.
    split; [reflexivity|]. right. exists iref. auto. }
  right. exists args, iref, dref, keys. auto.
Qed.

(** A request that was handed over is the assembled one, and the only one. *)
Lemma emitted_inv self inv request :
  request ∈ emitted self inv →
  ∃ args instance_ref disk_ref csek_keys,
    parse_args (Args self []) inv = ok args ∧
    ResolveAsResource args = ok instance_ref ∧
    ParseDiskRef self args instance_ref = ok disk_ref ∧
    FromArgs args (bool_decide (track_of self ∈ [ALPHA; BETA])) = ok csek_keys ∧
    request = assembled self inv instance_ref (SelfLink disk_ref)
                (MaybeLookupKeyMessage csek_keys disk_ref) ∧
    emitted self inv = [request].
Proof.
  unfold emitted.
  destruct (Execute_cases self inv []) as [(e & -> & _)|
    (args & iref & dref & keys & Hp & Hr & Hd & Hk & ->)]; cbn [snd].
  - intros Hin. inversion Hin.
  - cbn [app]. intros Hin. apply list_elem_of_singleton in Hin. subst request.
    exists args, iref, dref, keys. auto 10.
Qed.

(** ** The gated fields *)

(** C1. For every track and every set of caller options, the emitted
    request carries [forceAttach] if and only if the track is BETA or
    ALPHA; under GA the field is omitted whatever the caller passed. *)
Theorem forceAttach_carried_iff_beta_or_alpha self inv request :
  request ∈ emitted self inv →
  (is_Some (forceAttach request)
   ↔ track_of self = BETA ∨ track_of self = ALPHA)
  ∧ (track_of self = GA → forceAttach request = None).
Proof.
  intros Hin.
  destruct (emitted_inv _ _ _ Hin) as (args & iref & dref & keys & _ & _ & _ & _ & -> & _).
  unfold assembled; cbn [forceAttach]. rewrite gate_force.
  destruct self; cbn [track_of]; split; try split;
    try (intros [? ?]); try (intros [?|?]); try intros ?;
    try discriminate; eauto.
Qed.

(** C2. For every track other than ALPHA the emitted request's [boot]
    field is absent; under ALPHA it is populated if and only if the
    caller requested it. *)
Theorem boot_only_under_alpha self inv request :
  request ∈ emitted self inv →
  ∃ attached_disk, attachedDisk request = Some attached_disk ∧
    (track_of self ≠ ALPHA → boot attached_disk = None) ∧
    (track_of self = ALPHA →
     (is_Some (boot attached_disk) ↔ "--boot" ∈ switches inv) ∧
     (boot attached_disk = Some true ↔ "--boot" ∈ switches inv)).
Proof.
  intros Hin.
  destruct (emitted_inv _ _ _ Hin) as (args & iref & dref & keys & _ & _ & _ & _ & -> & _).
  unfold assembled; cbn [attachedDisk]. eexists. split; [reflexivity|].
  cbn [boot]. split.
  - intros Hne. rewrite bool_decide_eq_false_2; [reflexivity|].
    intros [? _]. contradiction.
  - intros Ha. case_bool_decide as Hb.
    + destruct Hb as [_ Hb]. repeat split; eauto.
    + assert ("--boot" ∉ switches inv) by (intros ?; apply Hb; auto).
      repeat split; try (intros [? ?]); try intros ?;
        try discriminate; contradiction.
Qed.

(** C10. Under BETA and ALPHA the emitted request's [forceAttach] is
    always populated: [False] when the caller did not pass the flag,
    [True] when they did. *)
Theorem forceAttach_defaults_to_false self inv request :
  request ∈ emitted self inv →
  track_of self = BETA ∨ track_of self = ALPHA →
  forceAttach request = Some (bool_decide ("--force-attach" ∈ switches inv))
  ∧ ("--force-attach" ∉ switches inv → forceAttach request = Some false).
Proof.
  intros Hin Htrack.
  destruct (emitted_inv _ _ _ Hin) as (args & iref & dref & keys & _ & _ & _ & _ & -> & _).
  unfold assembled; cbn [forceAttach]. rewrite gate_force.
  destruct self; cbn [track_of] in Htrack;
    try (destruct Htrack; discriminate);
    (split; [reflexivity|]); intros Hno;
    rewrite bool_decide_eq_false_2 by exact Hno; reflexivity.
Qed.

(** C5. Every emitted request has its [mode] set: [READ_ONLY] when the
    caller passed [ro], [READ_WRITE] when the caller passed [rw] or
    left the option out. *)
Theorem mode_always_set self inv request :
  request ∈ emitted self inv →
  ∃ attached_disk, attachedDisk request = Some attached_disk ∧
    is_Some (mode attached_disk) ∧
    (operands inv !! "--mode" = Some "ro" →
     mode attached_disk = Some READ_ONLY) ∧
    (operands inv !! "--mode" = Some "rw" →
     mode attached_disk = Some READ_WRITE) ∧
    (operands inv !! "--mode" = None →
     mode attached_disk = Some READ_WRITE) ∧
    (operands inv !! "--mode" = Some "ro"
     ∨ operands inv !! "--mode" = Some "rw"
     ∨ operands inv !! "--mode" = None).
Proof.
  intros Hin.
  destruct (emitted_inv _ _ _ Hin) as (args & iref & dref & keys & Hp & _ & _ & _ & -> & _).
  unfold assembled; cbn [attachedDisk]. eexists. split; [reflexivity|].
  cbn [mode]. split; [eauto|].
  repeat split.
  - intros ->. reflexivity.
  - intros ->. reflexivity.
  - intros ->. reflexivity.
  - destruct (parsed_mode _ _ _ Hp) as [[Hm _]|[[Hm _]|[Hm _]]]; auto.
Qed.

(** ** Resolving the disk *)

(** C3. The disk reference is resolved with the caller's scope selector
    (REGION when the caller chose [regional], ZONE otherwise) when the
    track is BETA or ALPHA, and with the scope forced to ZONE when the
    track is GA, whatever the caller passed; the reference so resolved
    is the source of the emitted request. *)
Theorem disk_scope_by_track self inv :
  (∀ args instance_ref,
     parse_args (Args self []) inv = ok args →
     ∃ disk, operands inv !! "--disk" = Some disk ∧
       let resolve_in := ParseDiskResource (VStr disk)
                           (ref_project instance_ref) (ref_zone instance_ref) in
       (track_of self = GA →
        ParseDiskRef self args instance_ref = resolve_in ZONE) ∧
       (track_of self = BETA ∨ track_of self = ALPHA →
        (operands inv !! "--disk-scope" = Some "regional" →
         ParseDiskRef self args instance_ref = resolve_in REGION) ∧
        (operands inv !! "--disk-scope" ≠ Some "regional" →
         ParseDiskRef self args instance_ref = resolve_in ZONE)))
  ∧
  (∀ request, request ∈ emitted self inv →
     ∃ args instance_ref disk_ref attached_disk,
       parse_args (Args self []) inv = ok args ∧
       ResolveAsResource args = ok instance_ref ∧
       ParseDiskRef self args instance_ref = ok disk_ref ∧
       attachedDisk request = Some attached_disk ∧
       source attached_disk = Some (SelfLink disk_ref)).
Proof.
  split.
  - intros args iref Hp.
    destruct (ParseDiskRef_parsed self inv args iref Hp) as (disk & Hd & Heq).
    exists disk. split; [exact Hd|]. cbv zeta. rewrite Heq. clear Heq.
    destruct self; cbn [track_of]; split; try discriminate;
      try (intros [?|?]; discriminate); try reflexivity; intros _;
      (split; intros Hs;
        [ rewrite bool_decide_eq_true_2 by exact Hs
        | rewrite bool_decide_eq_false_2 by exact Hs ]; reflexivity).
  - intros request Hin.
    destruct (emitted_inv _ _ _ Hin)
      as (args & iref & dref & keys & Hp & Hr & Hd & _ & -> & _).
    exists args, iref, dref. eexists. repeat split; eauto.
Qed.

(** ** Encryption keys *)

(** C6. The [encryptionKey] of the emitted request is populated only if
    the caller supplied key material for the resolved reference of the
    target disk, and is then that key; otherwise the field is absent. *)
Theorem encryptionKey_only_from_matching_key self inv request :
  request ∈ emitted self inv →
  ∃ args instance_ref disk_ref attached_disk,
    parse_args (Args self []) inv = ok args ∧
    ResolveAsResource args = ok instance_ref ∧
    ParseDiskRef self args instance_ref = ok disk_ref ∧
    attachedDisk request = Some attached_disk ∧
    (∀ k, diskEncryptionKey attached_disk = Some k →
       ∃ path e, operands inv !! "--csek-key-file" = Some path ∧
         e ∈ ReadKeyFile path ∧ uri e = SelfLink disk_ref ∧
         k = key_message e) ∧
    (operands inv !! "--csek-key-file" = None →
     diskEncryptionKey attached_disk = None) ∧
    (∀ path, operands inv !! "--csek-key-file" = Some path →
       (∀ e, e ∈ ReadKeyFile path → uri e ≠ SelfLink disk_ref) →
       diskEncryptionKey attached_disk = None).
Proof.
  intros Hin.
  destruct (emitted_inv _ _ _ Hin)
    as (args & iref & dref & keys & Hp & Hr & Hd & Hk & -> & _).
  exists args, iref, dref. eexists.
  split; [exact Hp|]. split; [exact Hr|]. split; [exact Hd|].
  split; [reflexivity|]. cbn [assembled diskEncryptionKey].
  rewrite (FromArgs_parsed _ _ _ _ Hp) in Hk.
  destruct (operands inv !! "--csek-key-file") as [path|] eqn:Hfile.
  - destruct (negb _ && _); [discriminate|]. injection Hk as <-.
    unfold MaybeLookupKeyMessage. cbn [mbind option_bind].
    destruct (find _ (ReadKeyFile path)) as [e|] eqn:Hfind; cbn [mbind option_bind].
    + apply List.find_some in Hfind as [Hin' Huri].
      apply String.eqb_eq in Huri. apply list_elem_of_In in Hin'.
      split; [|split].
      * intros k [= <-]. exists path, e. auto.
      * discriminate.
      * intros path' [= <-] Hno. exfalso. exact (Hno e Hin' Huri).
    + split; [|split]; try discriminate; auto.
  - injection Hk as <-. cbn. split; [|split]; try discriminate; auto.
Qed.

(** C4. RSA-wrapped keys are accepted if and only if the track is BETA
    or ALPHA: once the instance and the disk have resolved, a key file
    holding an RSA-wrapped key fails under GA with [UnsupportedKeyType]
    and nothing is emitted, while under BETA and ALPHA the request is
    emitted and, when the file holds the key of the target disk, its
    [encryptionKey] is that key. *)
Theorem rsa_keys_need_beta_or_alpha self inv args instance_ref disk_ref path :
  parse_args (Args self []) inv = ok args →
  ResolveAsResource args = ok instance_ref →
  ParseDiskRef self args instance_ref = ok disk_ref →
  operands inv !! "--csek-key-file" = Some path →
  existsb is_rsa (ReadKeyFile path) = true →
  (track_of self = GA →
   outcome self inv = raise UnsupportedKeyType ∧ emitted self inv = []) ∧
  (track_of self = BETA ∨ track_of self = ALPHA →
   ∃ request attached_disk,
     emitted self inv = [request] ∧
     outcome self inv = mapM Transport [request] ∧
     attachedDisk request = Some attached_disk ∧
     ∀ e, find (fun e => String.eqb (uri e) (SelfLink disk_ref))
            (ReadKeyFile path) = Some e →
          diskEncryptionKey attached_disk = Some (key_message e) ∧
          (is_rsa e = true →
           diskEncryptionKey attached_disk
           = Some {| rawKey := None; rsaEncryptedKey := Some (key e) |})) ∧
  (emitted self inv ≠ [] ↔ track_of self = BETA ∨ track_of self = ALPHA).
Proof.
  intros Hp Hr Hd Hfile Hrsa.
  assert (Hex : Execute self inv []
    = match self with
      | AttachDisk => (raise UnsupportedKeyType, [])
      | _ =>
        let request := assembled self inv instance_ref (SelfLink disk_ref)
          (MaybeLookupKeyMessage (Some (ReadKeyFile path)) disk_ref) in
        (mapM Transport [request], [request])
      end).
  { rewrite Execute_unfold, Hp. unfold ok. cbv iota.
    rewrite (Run_parsed _ _ _ _ Hp), Hr. unfold ok. cbv iota.
    rewrite Hd. unfold ok. cbv iota.
    rewrite (FromArgs_parsed _ _ _ _ Hp), Hfile, Hrsa, gate_force.
    destruct self; reflexivity. }
  unfold outcome, emitted. rewrite Hex. clear Hex.
  destruct self; cbn [track_of]; (split; [|split]).
  1, 4, 7: intros Ht; try discriminate; split; reflexivity.
  1, 3, 5: intros Ht; try (destruct Ht; discriminate);
    do 2 eexists; cbv zeta; cbn [fst snd];
    (split; [reflexivity|]); (split; [reflexivity|]);
    (split; [reflexivity|]);
    intros e He; cbn [assembled diskEncryptionKey];
    unfold MaybeLookupKeyMessage; cbn [mbind option_bind];
    rewrite He; cbn [mbind option_bind]; (split; [reflexivity|]);
    unfold key_message, is_rsa; destruct (key_type e);
    intros; try discriminate; reflexivity.
  - cbn [snd]. split; [intros H; contradiction | intros [?|?]; discriminate].
  - cbv zeta. cbn [snd]. split; [auto | discriminate].
  - cbv zeta. cbn [snd]. split; [auto | discriminate].
Qed.

(** ** Errors *)

(** C9. The option collector rejects an invocation without a disk
    identifier with [MissingRequiredOption], and one whose mode is
    neither [ro] nor [rw] with [InvalidEnumValue]; an invocation that
    leaves the mode out is not rejected for it: the default [rw]
    applies. Nothing is sent for a rejected invocation. *)
Theorem collector_validates_disk_and_mode self inv sent :
  (operands inv !! "--disk" = None →
   parse_args (Args self []) inv = raise MissingRequiredOption ∧
   Execute self inv sent = (raise MissingRequiredOption, sent)) ∧
  (∀ disk m,
     operands inv !! "--disk" = Some disk →
     operands inv !! "--mode" = Some m → m ≠ "ro" → m ≠ "rw" →
     parse_args (Args self []) inv = raise InvalidEnumValue ∧
     Execute self inv sent = (raise InvalidEnumValue, sent)) ∧
  (∀ disk,
     operands inv !! "--disk" = Some disk →
     operands inv !! "--mode" = None →
     track_of self = GA ∨ operands inv !! "--disk-scope" = None
       ∨ operands inv !! "--disk-scope" = Some "zonal"
       ∨ operands inv !! "--disk-scope" = Some "regional" →
     ∃ args, parse_args (Args self []) inv = ok args ∧
       args !! "disk" = Some (VStr disk) ∧
       args !! "mode" = Some (VStr "rw")).
Proof.
  split; [|split].
  - intros Hd. pose proof (parse_args_no_disk self inv Hd) as Hp.
    split; [exact Hp|]. rewrite Execute_unfold, Hp. reflexivity.
  - intros disk m Hd Hm Hro Hrw.
    pose proof (parse_args_bad_mode self inv disk m Hd Hm Hro Hrw) as Hp.
    split; [exact Hp|]. rewrite Execute_unfold, Hp. reflexivity.
  - intros disk Hd Hm Hs.
    destruct (parse_args_accepts self inv disk Hd (or_introl Hm) Hs) as [args Hp].
    exists args. split; [exact Hp|]. split.
    + destruct (parsed_disk _ _ _ Hp) as (disk' & Hd' & Ha). congruence.
    + destruct (parsed_mode _ _ _ Hp) as [[_ Ha]|[[Hm' _]|[Hm' _]]];
        [exact Ha | congruence | congruence].
Qed.

Lemma mapM_Transport_raises request e :
  (∀ request e, Transport request = raise e → e = TransportError) →
  mapM Transport [request] = raise e → e = TransportError.
Proof.
  intros HT. cbn. destruct (Transport request) as [e'|r] eqn:Ht.
  - cbn. intros [= <-]. eapply HT. exact Ht.
  - cbn. discriminate.
Qed.

(** C8. When the resolvers fail only with [ResourceResolutionError] and
    the transport only with [TransportError], building the request
    fails in one of four ways only: [MissingRequiredOption],
    [InvalidEnumValue], [ResourceResolutionError], [UnsupportedKeyType].
    Each of them ends the invocation with nothing handed to the
    transport; otherwise exactly one whole request is handed over. *)
Theorem construction_errors_are_terminal self inv sent :
  (∀ args e, ResolveAsResource args = raise e → e = ResourceResolutionError) →
  (∀ disk project zone scope e,
     ParseDiskResource disk project zone scope = raise e →
     e = ResourceResolutionError) →
  (∀ request e, Transport request = raise e → e = TransportError) →
  ((∃ e, construction_error e = true ∧
         Execute self inv sent = (raise e, sent)) ∨
   (∃ request,
      Execute self inv sent = (mapM Transport [request], sent ++ [request]))) ∧
  (∀ e, (Execute self inv sent).1 = raise e →
     e = TransportError ∨ construction_error e = true) ∧
  (∀ e, (Execute self inv sent).1 = raise e →
     construction_error e = true → (Execute self inv sent).2 = sent).
Proof.
  intros HR HP HT.
  assert (Hcases :
    (∃ e, construction_error e = true ∧
          Execute self inv sent = (raise e, sent)) ∨
    (∃ request,
       Execute self inv sent = (mapM Transport [request], sent ++ [request]))).
  { destruct (Execute_cases self inv sent) as [(e & Hex & Hwhy)|
      (args & iref & dref & keys & _ & _ & _ & _ & Hex)].
    - left. exists e. split; [|exact Hex].
      destruct Hwhy as [Hp|(args & Hp & [Hr|(iref & Hr & [Hd|Hk])])].
      + apply parse_into_raise in Hp as (a & _ & Ha).
        destruct (parse_argument_raises _ _ _ Ha) as [-> | ->]; reflexivity.
      + rewrite (HR _ _ Hr). reflexivity.
      + destruct (ParseDiskRef_parsed self inv args iref Hp) as (disk & _ & Heq).
        rewrite Heq in Hd. rewrite (HP _ _ _ _ _ Hd). reflexivity.
      + rewrite (FromArgs_parsed _ _ _ _ Hp) in Hk.
        unfold raise, ok in Hk. repeat case_match; try discriminate.
        injection Hk as <-. reflexivity.
    - right. eexists. exact Hex. }
  split; [exact Hcases|].
  destruct Hcases as [(e' & He' & ->)|(request & ->)]; cbn [fst snd].
  - split; intros e [= <-]; auto.
  - split; intros e He.
    + left. eapply mapM_Transport_raises; eauto.
    + intros Hc. rewrite (mapM_Transport_raises _ _ HT He) in Hc. discriminate.
Qed.

End Properties.

(** ** The command on concrete invocations *)

Example run_ga_d1 :
  Sample.Execute AttachDisk Sample.inv_d1 []
  = (ok [Some "example-instance"], [Sample.request_ga]).
Proof. vm_compute. reflexivity. Qed.

Example run_ga_full :
  Sample.emitted AttachDisk Sample.inv_full
  = [ {| instance := Some "example-instance"; project := Some "my-project";
         attachedDisk := Some
           {| deviceName := Some "sdb"; mode := Some READ_ONLY;
              source := Some "zones/us-central1-a/disks/d1";
              type := Some PERSISTENT; diskEncryptionKey := None;
              boot := None |};
         zone := Some "us-central1-a"; forceAttach := None |} ].
Proof. vm_compute. reflexivity. Qed.

Example run_beta_full :
  Sample.emitted AttachDiskBeta Sample.inv_full = [Sample.request_beta].
Proof. vm_compute. reflexivity. Qed.

Example run_alpha_full :
  Sample.emitted AttachDiskAlpha Sample.inv_full = [Sample.request_alpha].
Proof. vm_compute. reflexivity. Qed.

Example run_ga_rsa :
  Sample.Execute AttachDisk Sample.inv_rsa [] = (raise UnsupportedKeyType, []).
Proof. vm_compute. reflexivity. Qed.

Example run_beta_rsa :
  Sample.emitted AttachDiskBeta Sample.inv_rsa = [Sample.request_beta_rsa].
Proof. vm_compute. reflexivity. Qed.

Example run_ga_missing :
  Sample.Execute AttachDisk Sample.inv_missing []
  = (raise ResourceResolutionError, []).
Proof. vm_compute. reflexivity. Qed.

Example run_transport_down :
  Execute Sample.SelfLink Sample.ResolveAsResource Sample.ParseDiskResource
    Sample.ReadKeyFile Sample.TransportDown AttachDisk Sample.inv_d1 []
  = (raise TransportError, [Sample.request_ga]).
Proof. vm_compute. reflexivity. Qed.

(** A namespace collected under the GA schema has no [disk_scope]: the
    BETA method cannot run on it. *)
Example run_beta_on_ga_namespace :
  Run Sample.SelfLink Sample.ResolveAsResource Sample.ParseDiskResource
    Sample.ReadKeyFile Sample.Transport AttachDiskBeta
    (Sample.args_of AttachDisk Sample.inv_d1) []
  = (raise (AttributeError "disk_scope"), []).
Proof. vm_compute. reflexivity. Qed.

Example collect_bad_mode :
  parse_args (Args AttachDiskAlpha []) Sample.inv_bad_mode
  = raise InvalidEnumValue.
Proof. vm_compute. reflexivity. Qed.

(** ** The theorems at concrete invocations *)

Lemma forceAttach_carried_witness :
  (is_Some (forceAttach Sample.request_beta)
   ↔ track_of AttachDiskBeta = BETA ∨ track_of AttachDiskBeta = ALPHA)
  ∧ (track_of AttachDiskBeta = GA → forceAttach Sample.request_beta = None).
Proof.
  apply (forceAttach_carried_iff_beta_or_alpha Sample.SelfLink
    Sample.ResolveAsResource Sample.ParseDiskResource Sample.ReadKeyFile
    Sample.Transport AttachDiskBeta Sample.inv_full Sample.request_beta).
  vm_compute. left.
Defined.

Lemma boot_only_under_alpha_witness :
  ∃ attached_disk, attachedDisk Sample.request_alpha = Some attached_disk ∧
    (track_of AttachDiskAlpha ≠ ALPHA → boot attached_disk = None) ∧
    (track_of AttachDiskAlpha = ALPHA →
     (is_Some (boot attached_disk) ↔ "--boot" ∈ switches Sample.inv_full) ∧
     (boot attached_disk = Some true ↔ "--boot" ∈ switches Sample.inv_full)).
Proof.
  apply (boot_only_under_alpha Sample.SelfLink
    Sample.ResolveAsResource Sample.ParseDiskResource Sample.ReadKeyFile
    Sample.Transport AttachDiskAlpha Sample.inv_full Sample.request_alpha).
  vm_compute. left.
Defined.

Lemma forceAttach_defaults_witness :
  forceAttach Sample.request_beta_rsa
  = Some (bool_decide ("--force-attach" ∈ switches Sample.inv_rsa))
  ∧ ("--force-attach" ∉ switches Sample.inv_rsa →
     forceAttach Sample.request_beta_rsa = Some false).
Proof.
  apply (forceAttach_defaults_to_false Sample.SelfLink
    Sample.ResolveAsResource Sample.ParseDiskResource Sample.ReadKeyFile
    Sample.Transport AttachDiskBeta Sample.inv_rsa Sample.request_beta_rsa).
  - vm_compute. left.
  - left. reflexivity.
Defined.

Lemma mode_always_set_witness :
  ∃ attached_disk, attachedDisk Sample.request_ga = Some attached_disk ∧
    is_Some (mode attached_disk) ∧
    (operands Sample.inv_d1 !! "--mode" = Some "ro" →
     mode attached_disk = Some READ_ONLY) ∧
    (operands Sample.inv_d1 !! "--mode" = Some "rw" →
     mode attached_disk = Some READ_WRITE) ∧
    (operands Sample.inv_d1 !! "--mode" = None →
     mode attached_disk = Some READ_WRITE) ∧
    (operands Sample.inv_d1 !! "--mode" = Some "ro"
     ∨ operands Sample.inv_d1 !! "--mode" = Some "rw"
     ∨ operands Sample.inv_d1 !! "--mode" = None).
Proof.
  apply (mode_always_set Sample.SelfLink
    Sample.ResolveAsResource Sample.ParseDiskResource Sample.ReadKeyFile
    Sample.Transport AttachDisk Sample.inv_d1 Sample.request_ga).
  vm_compute. left.
Defined.

Lemma disk_scope_by_track_witness :
  ∃ disk, operands Sample.inv_full !! "--disk" = Some disk ∧
    let resolve_in := Sample.ParseDiskResource (VStr disk)
      (ref_project Sample.example_instance) (ref_zone Sample.example_instance) in
    (track_of AttachDiskBeta = GA →
     ParseDiskRef Sample.ParseDiskResource AttachDiskBeta
       (Sample.args_of AttachDiskBeta Sample.inv_full) Sample.example_instance
     = resolve_in ZONE) ∧
    (track_of AttachDiskBeta = BETA ∨ track_of AttachDiskBeta = ALPHA →
     (operands Sample.inv_full !! "--disk-scope" = Some "regional" →
      ParseDiskRef Sample.ParseDiskResource AttachDiskBeta
        (Sample.args_of AttachDiskBeta Sample.inv_full) Sample.example_instance
      = resolve_in REGION) ∧
     (operands Sample.inv_full !! "--disk-scope" ≠ Some "regional" →
      ParseDiskRef Sample.ParseDiskResource AttachDiskBeta
        (Sample.args_of AttachDiskBeta Sample.inv_full) Sample.example_instance
      = resolve_in ZONE)).
Proof.
  apply (proj1 (disk_scope_by_track Sample.SelfLink
    Sample.ResolveAsResource Sample.ParseDiskResource Sample.ReadKeyFile
    Sample.Transport AttachDiskBeta Sample.inv_full)).
  vm_compute. reflexivity.
Defined.

Lemma encryptionKey_witness :
  ∃ args instance_ref disk_ref attached_disk,
    parse_args (Args AttachDiskBeta []) Sample.inv_rsa = ok args ∧
    Sample.ResolveAsResource args = ok instance_ref ∧
    ParseDiskRef Sample.ParseDiskResource AttachDiskBeta args instance_ref
    = ok disk_ref ∧
    attachedDisk Sample.request_beta_rsa = Some attached_disk ∧
    (∀ k, diskEncryptionKey attached_disk = Some k →
       ∃ path e, operands Sample.inv_rsa !! "--csek-key-file" = Some path ∧
         e ∈ Sample.ReadKeyFile path ∧ uri e = Sample.SelfLink disk_ref ∧
         k = key_message e) ∧
    (operands Sample.inv_rsa !! "--csek-key-file" = None →
     diskEncryptionKey attached_disk = None) ∧
    (∀ path, operands Sample.inv_rsa !! "--csek-key-file" = Some path →
       (∀ e, e ∈ Sample.ReadKeyFile path → uri e ≠ Sample.SelfLink disk_ref) →
       diskEncryptionKey attached_disk = None).
Proof.
  apply (encryptionKey_only_from_matching_key Sample.SelfLink
    Sample.ResolveAsResource Sample.ParseDiskResource Sample.ReadKeyFile
    Sample.Transport AttachDiskBeta Sample.inv_rsa Sample.request_beta_rsa).
  vm_compute. left.
Defined.

Lemma rsa_keys_witness :
  (Sample.outcome AttachDisk Sample.inv_rsa = raise UnsupportedKeyType
   ∧ Sample.emitted AttachDisk Sample.inv_rsa = [])
  ∧ (Sample.emitted AttachDiskBeta Sample.inv_rsa ≠ []
     ↔ track_of AttachDiskBeta = BETA ∨ track_of AttachDiskBeta = ALPHA).
Proof.
  split.
  - apply (proj1 (rsa_keys_need_beta_or_alpha Sample.SelfLink
      Sample.ResolveAsResource Sample.ParseDiskResource Sample.ReadKeyFile
      Sample.Transport AttachDisk Sample.inv_rsa
      (Sample.args_of AttachDisk Sample.inv_rsa)
      Sample.example_instance Sample.zonal_d1 "rsa.json"
      ltac:(vm_compute; reflexivity) ltac:(vm_compute; reflexivity)
      ltac:(vm_compute; reflexivity) ltac:(vm_compute; reflexivity)
      ltac:(vm_compute; reflexivity))).
    reflexivity.
  - apply (proj2 (proj2 (rsa_keys_need_beta_or_alpha Sample.SelfLink
      Sample.ResolveAsResource Sample.ParseDiskResource Sample.ReadKeyFile
      Sample.Transport AttachDiskBeta Sample.inv_rsa
      (Sample.args_of AttachDiskBeta Sample.inv_rsa)
      Sample.example_instance Sample.zonal_d1 "rsa.json"
      ltac:(vm_compute; reflexivity) ltac:(vm_compute; reflexivity)
      ltac:(vm_compute; reflexivity) ltac:(vm_compute; reflexivity)
      ltac:(vm_compute; reflexivity)))).
Defined.

Lemma collector_validates_witness :
  parse_args (Args AttachDisk []) Sample.inv_no_disk = raise MissingRequiredOption
  ∧ Sample.Execute AttachDisk Sample.inv_no_disk []
    = (raise MissingRequiredOption, []).
Proof.
  apply (proj1 (collector_validates_disk_and_mode Sample.SelfLink
    Sample.ResolveAsResource Sample.ParseDiskResource Sample.ReadKeyFile
    Sample.Transport AttachDisk Sample.inv_no_disk [])).
  vm_compute. reflexivity.
Defined.

Lemma Sample_ResolveAsResource_raises args e :
  Sample.ResolveAsResource args = raise e → e = ResourceResolutionError.
Proof. discriminate. Defined.

Lemma Sample_ParseDiskResource_raises disk project zone scope e :
  Sample.ParseDiskResource disk project zone scope = raise e →
  e = ResourceResolutionError.
Proof.
  unfold Sample.ParseDiskResource, raise, ok.
  repeat case_match; intros [= <-]; reflexivity.
Defined.

Lemma Sample_Transport_raises request e :
  Sample.Transport request = raise e → e = TransportError.
Proof. discriminate. Defined.

Lemma construction_errors_witness :
  ((∃ e, construction_error e = true ∧
         Sample.Execute AttachDisk Sample.inv_missing [] = (raise e, [])) ∨
   (∃ request,
      Sample.Execute AttachDisk Sample.inv_missing []
      = (mapM Sample.Transport [request], [] ++ [request]))) ∧
  (∀ e, (Sample.Execute AttachDisk Sample.inv_missing []).1 = raise e →
     e = TransportError ∨ construction_error e = true) ∧
  (∀ e, (Sample.Execute AttachDisk Sample.inv_missing []).1 = raise e →
     construction_error e = true →
     (Sample.Execute AttachDisk Sample.inv_missing []).2 = []).
Proof.
  exact (construction_errors_are_terminal Sample.SelfLink
    Sample.ResolveAsResource Sample.ParseDiskResource Sample.ReadKeyFile
    Sample.Transport AttachDisk Sample.inv_missing []
    Sample_ResolveAsResource_raises Sample_ParseDiskResource_raises
    Sample_Transport_raises).
Defined.

(** ** [Run] on any namespace *)

Lemma result_bind_ok {A B} (m : result A) (f : A → result B) b :
  m ≫= f = ok b → ∃ a, m = ok a ∧ f a = ok b.
Proof. destruct m as [e|a]; [discriminate|]. intros H. exists a. auto. Qed.

Lemma getattr_ok args name v :
  getattr args name = ok v ↔ args !! name = Some v.
Proof.
  unfold getattr, ok, raise. destruct (args !! name); split; congruence.
Qed.

Section AnyNamespace.

Context {DiskRef Response : Type}.
Variable SelfLink : DiskRef → string.
Variable ResolveAsResource : gmap string Value → result InstanceRef.
Variable ParseDiskResource :
  Value → string → string → ScopeEnum → result DiskRef.
Variable ReadKeyFile : string → list CsekEntry.
Variable Transport : ComputeInstancesAttachDiskRequest → result Response.

Local Abbreviation ParseDiskRef := (ParseDiskRef ParseDiskResource).
Local Abbreviation FromArgs := (FromArgs ReadKeyFile).
Local Abbreviation BuildRequest :=
  (BuildRequest SelfLink ResolveAsResource ParseDiskResource ReadKeyFile).
Local Abbreviation Run :=
  (Run SelfLink ResolveAsResource ParseDiskResource ReadKeyFile Transport).
Local Abbreviation Execute :=
  (Execute SelfLink ResolveAsResource ParseDiskResource ReadKeyFile Transport).
Local Abbreviation emitted :=
  (emitted SelfLink ResolveAsResource ParseDiskResource ReadKeyFile Transport).

Ltac run_step :=
  first [ rewrite bind_assoc | rewrite bind_mret | rewrite bind_pure ];
  cbv beta.

Lemma Run_BuildRequest self args sent :
  Run self args sent
  = match BuildRequest self args with
    | inl e => (inl e, sent)
    | inr request => (mapM Transport [request], sent ++ [request])
    end.
Proof.
  unfold Run, BuildRequest.
  run_step. destruct (ResolveAsResource args) as [e|iref];
    cbn [mbind result_bind]; [reflexivity|].
  run_step. destruct (ParseDiskRef self args iref) as [e|dref];
    cbn [mbind result_bind]; [reflexivity|].
  run_step. destruct (getattr args "mode") as [e|m];
    cbn [mbind result_bind]; [reflexivity|].
  run_step. destruct (FromArgs args _) as [e|keys];
    cbn [mbind result_bind]; [reflexivity|].
  run_step. destruct (getattr args "device_name") as [e|v];
    cbn [mbind result_bind]; [reflexivity|].
  run_step. destruct (assign_string "deviceName" v) as [e|dn];
    cbn [mbind result_bind]; [reflexivity|].
  cbv zeta. rewrite gate_boot, !gate_force.
  destruct self; cbv iota.
  - reflexivity.
  - cbn [mbind result_bind ok]. repeat run_step.
    destruct (getattr args "force_attach") as [e|fa];
      cbn [mbind result_bind]; [reflexivity|].
    repeat run_step.
    destruct (assign_boolean "forceAttach" fa); reflexivity.
  - repeat run_step.
    destruct (getattr args "boot") as [e|bv];
      cbn [mbind result_bind]; [reflexivity|].
    destruct (truthy bv).
    + repeat run_step.
      destruct (assign_boolean "boot" bv) as [e|b];
        cbn [mbind result_bind]; [reflexivity|].
      repeat run_step.
      destruct (getattr args "force_attach") as [e|fa];
        cbn [mbind result_bind]; [reflexivity|].
      repeat run_step.
      destruct (assign_boolean "forceAttach" fa); reflexivity.
    + cbn [mbind result_bind ok]. repeat run_step.
      destruct (getattr args "force_attach") as [e|fa];
        cbn [mbind result_bind]; [reflexivity|].
      repeat run_step.
      destruct (assign_boolean "forceAttach" fa); reflexivity.
Qed.

Lemma BuildRequest_inv self args request :
  BuildRequest self args = ok request →
  ∃ instance_ref disk_ref args_mode csek_keys args_device_name device_name
    boot force_attach,
    ResolveAsResource args = ok instance_ref ∧
    ParseDiskRef self args instance_ref = ok disk_ref ∧
    args !! "mode" = Some args_mode ∧
    FromArgs args (bool_decide (track_of self ∈ [ALPHA; BETA])) = ok csek_keys ∧
    args !! "device_name" = Some args_device_name ∧
    assign_string "deviceName" args_device_name = ok device_name ∧
    (if bool_decide (track_of self = ALPHA)
     then
       args_boot ← getattr args "boot";
       if truthy args_boot then assign_boolean "boot" args_boot else ok None
     else ok None) = ok boot ∧
    (if bool_decide (track_of self ∈ [ALPHA; BETA])
     then
       args_force_attach ← getattr args "force_attach";
       assign_boolean "forceAttach" args_force_attach
     else ok None) = ok force_attach ∧
    request =
      {| instance := Some (Name instance_ref);
         project := Some (ref_project instance_ref);
         attachedDisk := Some
           {| deviceName := device_name;
              mode := Some (if py_eq args_mode (VStr "rw")
                            then READ_WRITE else READ_ONLY);
              source := Some (SelfLink disk_ref);
              type := Some PERSISTENT;
              diskEncryptionKey :=
                MaybeLookupKeyMessage SelfLink csek_keys disk_ref;
              boot := boot |};
         zone := Some (ref_zone instance_ref);
         forceAttach := force_attach |}.
Proof.
  unfold BuildRequest. intros H.
  apply result_bind_ok in H as (iref & Hr & H).
  apply result_bind_ok in H as (dref & Hd & H).
  apply result_bind_ok in H as (m & Hm & H).
  apply result_bind_ok in H as (keys & Hk & H).
  apply result_bind_ok in H as (v & Hv & H).
  apply result_bind_ok in H as (dn & Hdn & H).
  apply result_bind_ok in H as (bt & Hbt & H).
  apply result_bind_ok in H as (fa & Hfa & H).
  apply getattr_ok in Hm. apply getattr_ok in Hv.
  exists iref, dref, m, keys, v, dn, bt, fa.
  repeat (split; [assumption|]). unfold ok in H. congruence.
Qed.

(** What [Run] handed over is what it built. *)
Lemma Run_sent_inv self args request :
  request ∈ (Run self args []).2 → BuildRequest self args = ok request.
Proof.
  rewrite Run_BuildRequest.
  destruct (BuildRequest self args) as [e|r]; cbn [snd app].
  - intros H. inversion H.
  - intros H. apply list_elem_of_singleton in H. subst. reflexivity.
Qed.

(** X1. On any namespace, [Run] first builds the request without
    sending anything and independently of what was sent before; if a
    step raises, the exception leaves and the log is as it was;
    otherwise exactly that one request is appended and the transport is
    called on it. *)
Theorem Run_builds_then_sends_once self args :
  ∃ built : result ComputeInstancesAttachDiskRequest,
    ∀ sent,
      Run self args sent
      = match built with
        | inl e => (raise e, sent)
        | inr request => (mapM Transport [request], sent ++ [request])
        end.
Proof.
  exists (BuildRequest self args). intros sent. apply Run_BuildRequest.
Qed.

(** X3. On any namespace, a request handed over names the resolved
    instance, its project and its zone, attaches the disk by the self link
    of the reference [ParseDiskRef] returned, and always has type
    [PERSISTENT]. *)
Theorem Run_fixed_fields self args request :
  request ∈ (Run self args []).2 →
  ∃ instance_ref disk_ref attached_disk,
    ResolveAsResource args = ok instance_ref ∧
    ParseDiskRef self args instance_ref = ok disk_ref ∧
    instance request = Some (Name instance_ref) ∧
    project request = Some (ref_project instance_ref) ∧
    zone request = Some (ref_zone instance_ref) ∧
    attachedDisk request = Some attached_disk ∧
    source attached_disk = Some (SelfLink disk_ref) ∧
    type attached_disk = Some PERSISTENT.
Proof.
  intros Hin. apply Run_sent_inv, BuildRequest_inv in Hin
    as (iref & dref & m & keys & v & dn & bt & fa
        & Hr & Hd & _ & _ & _ & _ & _ & _ & ->).
  exists iref, dref. eexists. cbn. repeat split; eauto.
Qed.

(** X4. [Run] does not validate the mode: on any namespace, the request
    is read-write exactly when [args.mode] is the string [rw], and
    read-only for every other value, [None] and unknown strings
    included. *)
Theorem Run_mode_is_rw_or_read_only self args request :
  request ∈ (Run self args []).2 →
  ∃ attached_disk args_mode,
    attachedDisk request = Some attached_disk ∧
    args !! "mode" = Some args_mode ∧
    (args_mode = VStr "rw" → mode attached_disk = Some READ_WRITE) ∧
    (args_mode ≠ VStr "rw" → mode attached_disk = Some READ_ONLY).
Proof.
  intros Hin. apply Run_sent_inv, BuildRequest_inv in Hin
    as (iref & dref & m & keys & v & dn & bt & fa
        & _ & _ & Hm & _ & _ & _ & _ & _ & ->).
  eexists. exists m. cbn. split; [reflexivity|]. split; [exact Hm|].
  unfold py_eq. split; intros H.
  - rewrite bool_decide_eq_true_2 by exact H. reflexivity.
  - rewrite bool_decide_eq_false_2 by exact H. reflexivity.
Qed.

(** X5. On any namespace, the device name of a request handed over is
    the string in [args.device_name], and the field is absent when that
    attribute is [None]; a namespace without the attribute, or with a
    value that is no string, never gets as far as a request. *)
Theorem Run_deviceName_from_namespace self args request :
  request ∈ (Run self args []).2 →
  ∃ attached_disk,
    attachedDisk request = Some attached_disk ∧
    ((args !! "device_name" = Some VNone ∧ deviceName attached_disk = None) ∨
     (∃ s, args !! "device_name" = Some (VStr s) ∧
           deviceName attached_disk = Some s)).
Proof.
  intros Hin. apply Run_sent_inv, BuildRequest_inv in Hin
    as (iref & dref & m & keys & v & dn & bt & fa
        & _ & _ & _ & _ & Hv & Hdn & _ & _ & ->).
  eexists. cbn. split; [reflexivity|].
  destruct v as [|b|s]; cbn in Hdn; try discriminate;
    injection Hdn as <-; eauto.
Qed.

(** X6. On any namespace and any track, [boot] is never sent as
    [False]: the field is either absent or [True], and it is [True]
    exactly when the track is ALPHA and [args.boot] is [True]. *)
Theorem Run_boot_is_absent_or_true self args request :
  request ∈ (Run self args []).2 →
  ∃ attached_disk,
    attachedDisk request = Some attached_disk ∧
    boot attached_disk ≠ Some false ∧
    (boot attached_disk = Some true
     ↔ track_of self = ALPHA ∧ args !! "boot" = Some (VBool true)).
Proof.
  intros Hin. apply Run_sent_inv, BuildRequest_inv in Hin
    as (iref & dref & m & keys & v & dn & bt & fa
        & _ & _ & _ & _ & _ & _ & Hbt & _ & ->).
  eexists. cbn. split; [reflexivity|].
  rewrite gate_boot in Hbt.
  destruct self; cbn [track_of].
  1, 2: injection Hbt as <-; split; [discriminate|];
    split; [discriminate | intros [? _]; discriminate].
  apply result_bind_ok in Hbt as (bv & Hbv & Hbt).
  apply getattr_ok in Hbv. rewrite Hbv.
  destruct bv as [|[|]|s]; cbn in Hbt.
  - injection Hbt as <-. split; [discriminate|].
    split; [discriminate | intros [_ ?]; discriminate].
  - injection Hbt as <-. split; [discriminate|]. split; auto.
  - injection Hbt as <-. split; [discriminate|].
    split; [discriminate | intros [_ ?]; discriminate].
  - destruct (negb (String.eqb s "")); cbn in Hbt; [discriminate|].
    injection Hbt as <-. split; [discriminate|].
    split; [discriminate | intros [_ ?]; discriminate].
Qed.

(** X7. Each class reads only the attributes of its own schema: GA never
    reads [disk_scope], [force_attach] or [boot], and BETA never reads
    [boot]. Two namespaces that resolve to the same instance and agree
    on the attributes the class reads give the same run. *)
Theorem Run_reads_only_its_schema self args args' sent :
  ResolveAsResource args = ResolveAsResource args' →
  (∀ name, name ∈ ["disk"; "mode"; "device_name"; "csek_key_file"] →
           args !! name = args' !! name) →
  (track_of self ≠ GA →
   args !! "disk_scope" = args' !! "disk_scope" ∧
   args !! "force_attach" = args' !! "force_attach") →
  (track_of self = ALPHA → args !! "boot" = args' !! "boot") →
  Run self args sent = Run self args' sent.
Proof.
  intros Hr Hcommon Hgated Hboot.
  assert (Hdisk : args !! "disk" = args' !! "disk")
    by (apply Hcommon; repeat constructor).
  assert (Hmode : args !! "mode" = args' !! "mode")
    by (apply Hcommon; repeat constructor).
  assert (Hdev : args !! "device_name" = args' !! "device_name")
    by (apply Hcommon; repeat constructor).
  assert (Hkey : args !! "csek_key_file" = args' !! "csek_key_file")
    by (apply Hcommon; repeat constructor).
  rewrite !Run_BuildRequest. f_equal.
  all: unfold BuildRequest, ParseDiskRef, FromArgs, getattr;
    rewrite gate_boot, !gate_force, Hr, Hdisk, Hmode, Hdev, Hkey;
    destruct self; cbn [track_of] in Hgated, Hboot; cbv iota;
    try reflexivity;
    destruct Hgated as [-> ->]; try discriminate;
    rewrite ?Hboot by reflexivity; reflexivity.
Qed.

(** X8. The gated classes cannot run on a namespace collected under the
    GA schema: once the instance has resolved, [ParseDiskRef] of BETA and
    ALPHA raises [AttributeError] for [disk_scope], and nothing is
    sent. *)
Theorem gated_Run_needs_gated_schema self inv args instance_ref sent :
  parse_args (Args AttachDisk []) inv = ok args →
  ResolveAsResource args = ok instance_ref →
  track_of self ≠ GA →
  Run self args sent = (raise (AttributeError "disk_scope"), sent).
Proof.
  intros Hp Hr Hself. rewrite Run_BuildRequest.
  destruct (parsed_GA_absent _ _ Hp) as (Hscope & _ & _).
  unfold BuildRequest. rewrite Hr. cbn [ok mbind result_bind].
  unfold ParseDiskRef, getattr.
  destruct self; [contradiction| |]; rewrite Hscope; reflexivity.
Qed.

End AnyNamespace.

(** ** The schema [_Args] declares *)

Lemma _Args_app parser sd sf sb :
  _Args parser sd sf sb
  = parser
    ++ [ {| flag := "--device-name"; action := store; required := false;
            choices := None; default := None |};
         {| flag := "--disk"; action := store; required := true;
            choices := None; default := None |};
         {| flag := "--mode"; action := store; required := false;
            choices := Some (MODE_OPTIONS.*1); default := Some (VStr "rw") |} ]
    ++ (if sd then AddDiskScopeFlag [] else [])
    ++ (if sf then
          [ {| flag := "--force-attach"; action := store_true;
               required := false; choices := None;
               default := Some (VBool false) |} ]
        else [])
    ++ (if sb then
          [ {| flag := "--boot"; action := store_true; required := false;
               choices := None; default := None |} ]
        else [])
    ++ AddCsekKeyArgs [].
Proof.
  unfold _Args, AddDiskScopeFlag, AddCsekKeyArgs, add_argument.
  destruct sd, sf, sb; cbn [app]; rewrite <- ?app_assoc; reflexivity.
Qed.

(** X9. Whatever parser [_Args] starts from and whatever it is asked to
    support, it registers [--device-name], [--disk], [--mode] and the key
    file option, and it adds [--disk-scope], [--force-attach] and
    [--boot] exactly when the matching [support_] argument is set. *)
Theorem _Args_registers_by_support parser sd sf sb :
  let flags := flag <$> _Args parser sd sf sb in
  "--device-name" ∈ flags ∧ "--disk" ∈ flags ∧ "--mode" ∈ flags ∧
  "--csek-key-file" ∈ flags ∧
  ("--disk-scope" ∈ flags ↔ "--disk-scope" ∈ flag <$> parser ∨ sd = true) ∧
  ("--force-attach" ∈ flags ↔ "--force-attach" ∈ flag <$> parser ∨ sf = true) ∧
  ("--boot" ∈ flags ↔ "--boot" ∈ flag <$> parser ∨ sb = true).
Proof.
  cbv zeta. rewrite _Args_app.
  unfold AddDiskScopeFlag, AddCsekKeyArgs, add_argument.
  rewrite !fmap_app, !elem_of_app.
  destruct sd, sf, sb; cbn [fmap list_fmap app flag];
    rewrite ?elem_of_cons, ?elem_of_nil;
    intuition (try discriminate; try congruence).
Qed.

(** X10. The flags of each class: [--disk-scope] and [--force-attach]
    exist exactly under BETA and ALPHA, [--boot] exactly under ALPHA, and
    the four common options under every track. *)
Theorem Args_flags_by_track self :
  let flags := flag <$> Args self [] in
  "--device-name" ∈ flags ∧ "--disk" ∈ flags ∧ "--mode" ∈ flags ∧
  "--csek-key-file" ∈ flags ∧
  ("--disk-scope" ∈ flags ↔ track_of self = BETA ∨ track_of self = ALPHA) ∧
  ("--force-attach" ∈ flags ↔ track_of self = BETA ∨ track_of self = ALPHA) ∧
  ("--boot" ∈ flags ↔ track_of self = ALPHA).
Proof.
  cbv zeta.
  destruct self; unfold Args; cbn [track_of];
    match goal with
    | |- context [_Args [] ?sd ?sf ?sb] =>
        destruct (_Args_registers_by_support [] sd sf sb)
          as (H1 & H2 & H3 & H4 & H5 & H6 & H7)
    end;
    cbn [fmap list_fmap] in H5, H6, H7;
    rewrite elem_of_nil in H5, H6, H7;
    (split; [exact H1|]); (split; [exact H2|]); (split; [exact H3|]);
    (split; [exact H4|]); rewrite H5, H6, H7;
    intuition (try discriminate; try congruence).
Qed.

(** X11. [_Args] only ever appends: the arguments already registered stay
    in front, in order, and supporting more never removes or reorders an
    argument. In particular the GA schema is part of the BETA schema,
    which is part of the ALPHA schema. *)
Theorem _Args_grows_with_support parser sd sf sb sd' sf' sb' :
  (sd = true → sd' = true) →
  (sf = true → sf' = true) →
  (sb = true → sb' = true) →
  parser `prefix_of` _Args parser sd sf sb ∧
  _Args parser sd sf sb `sublist_of` _Args parser sd' sf' sb'.
Proof.
  intros Hd Hf Hb. rewrite !_Args_app. split.
  - eexists. reflexivity.
  - repeat (apply sublist_app; [reflexivity|]).
    apply sublist_app;
      [destruct sd, sd'; try reflexivity;
       first [apply sublist_nil_l | specialize (Hd eq_refl); discriminate]|].
    apply sublist_app;
      [destruct sf, sf'; try reflexivity;
       first [apply sublist_nil_l | specialize (Hf eq_refl); discriminate]|].
    apply sublist_app;
      [destruct sb, sb'; try reflexivity;
       first [apply sublist_nil_l | specialize (Hb eq_refl); discriminate]|].
    reflexivity.
Qed.

(** X13. Starting from an empty parser, no two arguments of [_Args]
    store into the same attribute, and no two share a flag, whatever is
    supported. *)
Theorem _Args_destinations_distinct sd sf sb :
  NoDup (dest <$> _Args [] sd sf sb) ∧ NoDup (flag <$> _Args [] sd sf sb).
Proof.
  destruct sd, sf, sb; split; apply (bool_decide_unpack _);
    vm_compute; reflexivity.
Qed.

(** ** One invocation under several tracks *)

Lemma store_true_parses inv f d :
  ∃ v, parse_argument inv
    {| flag := f; action := store_true; required := false;
       choices := None; default := d |} = ok v.
Proof.
  unfold parse_argument. cbn [action flag]. case_bool_decide; eauto.
Qed.

Lemma parse_beta_of_ga inv args :
  parse_args (Args AttachDisk []) inv = ok args →
  operands inv !! "--disk-scope" = None
    ∨ operands inv !! "--disk-scope" = Some "zonal" →
  ∃ args', parse_args (Args AttachDiskBeta []) inv = ok args'.
Proof.
  intros Hp Hs. apply parse_into_total. intros a Ha.
  unfold Args, _Args, AddCsekKeyArgs, AddDiskScopeFlag, add_argument in Ha.
  cbn [app] in Ha. rewrite !elem_of_cons, elem_of_nil in Ha.
  destruct_or! Ha; try contradiction; subst a;
    try (match goal with
         | |- ∃ v, parse_argument inv ?a = ok v =>
             destruct (parsed_attr AttachDisk inv args a Hp) as (v & Hv & _);
             [solve [schema_member] | exists v; exact Hv]
         end).
  - unfold parse_argument. cbn [action flag required choices default].
    destruct Hs as [-> | ->]; eauto.
  - apply store_true_parses.
Qed.

Lemma parse_alpha_of_beta inv args :
  parse_args (Args AttachDiskBeta []) inv = ok args →
  ∃ args', parse_args (Args AttachDiskAlpha []) inv = ok args'.
Proof.
  intros Hp. apply parse_into_total. intros a Ha.
  unfold Args, _Args, AddCsekKeyArgs, AddDiskScopeFlag, add_argument in Ha.
  cbn [app] in Ha. rewrite !elem_of_cons, elem_of_nil in Ha.
  destruct_or! Ha; try contradiction; subst a;
    try (match goal with
         | |- ∃ v, parse_argument inv ?a = ok v =>
             destruct (parsed_attr AttachDiskBeta inv args a Hp) as (v & Hv & _);
             [solve [schema_member] | exists v; exact Hv]
         end).
  apply store_true_parses.
Qed.

Section AcrossTracks.

Context {DiskRef Response : Type}.
Variable SelfLink : DiskRef → string.
Variable ResolveAsResource : gmap string Value → result InstanceRef.
Variable ParseDiskResource :
  Value → string → string → ScopeEnum → result DiskRef.
Variable ReadKeyFile : string → list CsekEntry.
Variable Transport : ComputeInstancesAttachDiskRequest → result Response.

Local Abbreviation ParseDiskRef := (ParseDiskRef ParseDiskResource).
Local Abbreviation FromArgs := (FromArgs ReadKeyFile).
Local Abbreviation Run :=
  (Run SelfLink ResolveAsResource ParseDiskResource ReadKeyFile Transport).
Local Abbreviation Execute :=
  (Execute SelfLink ResolveAsResource ParseDiskResource ReadKeyFile Transport).
Local Abbreviation emitted :=
  (emitted SelfLink ResolveAsResource ParseDiskResource ReadKeyFile Transport).

(** X14. The invocation that passes nothing but [--disk]: under every
    track it is accepted, and once the instance and the zonal disk
    resolve, the request sent is read-write, persistent, without device
    name, key or boot flag, and carries [forceAttach = False] under BETA
    and ALPHA and no [forceAttach] under GA. *)
Theorem disk_only_invocation self inv disk sent :
  operands inv = {[ "--disk" := disk ]} →
  switches inv = ∅ →
  ∃ args, parse_args (Args self []) inv = ok args ∧
    ∀ instance_ref disk_ref,
      ResolveAsResource args = ok instance_ref →
      ParseDiskResource (VStr disk) (ref_project instance_ref)
        (ref_zone instance_ref) ZONE = ok disk_ref →
      let request :=
        {| instance := Some (Name instance_ref);
           project := Some (ref_project instance_ref);
           attachedDisk := Some
             {| deviceName := None; mode := Some READ_WRITE;
                source := Some (SelfLink disk_ref);
                type := Some PERSISTENT; diskEncryptionKey := None;
                boot := None |};
           zone := Some (ref_zone instance_ref);
           forceAttach := match track_of self with
                          | GA => None
                          | _ => Some false
                          end |} in
      Execute self inv sent = (mapM Transport [request], sent ++ [request]).
Proof.
  intros Hops Hsw.
  assert (Hdisk : operands inv !! "--disk" = Some disk)
    by (rewrite Hops; apply lookup_singleton_eq).
  assert (Hmode : operands inv !! "--mode" = None)
    by (rewrite Hops; apply lookup_singleton_ne; discriminate).
  assert (Hscope : operands inv !! "--disk-scope" = None)
    by (rewrite Hops; apply lookup_singleton_ne; discriminate).
  assert (Hdev : operands inv !! "--device-name" = None)
    by (rewrite Hops; apply lookup_singleton_ne; discriminate).
  assert (Hkey : operands inv !! "--csek-key-file" = None)
    by (rewrite Hops; apply lookup_singleton_ne; discriminate).
  destruct (parse_args_accepts self inv disk Hdisk (or_introl Hmode)
              (or_intror (or_introl Hscope))) as [args Hp].
  exists args. split; [exact Hp|]. intros iref dref Hr Hd. cbv zeta.
  rewrite Execute_unfold, Hp. unfold ok. cbv iota.
  rewrite (Run_parsed _ _ _ _ _ _ _ _ _ Hp), Hr. unfold ok. cbv iota.
  destruct (ParseDiskRef_parsed ParseDiskResource self inv args iref Hp)
    as (disk' & Hdisk' & ->).
  assert (disk' = disk) as -> by congruence.
  rewrite Hscope.
  rewrite (bool_decide_eq_false_2 (None = Some "regional")) by discriminate.
  assert (Hzone : match self with AttachDisk => ZONE | _ => ZONE end = ZONE)
    by (destruct self; reflexivity).
  rewrite Hzone, Hd. unfold ok. cbv iota.
  rewrite (FromArgs_parsed _ _ _ _ _ Hp), Hkey. unfold ok. cbv iota zeta.
  unfold assembled. rewrite Hdev, Hmode, Hsw, gate_force.
  rewrite (bool_decide_eq_false_2 (None = Some "ro")) by discriminate.
  rewrite (bool_decide_eq_false_2 (_ ∧ "--boot" ∈ ∅))
    by (intros [_ H]; exact (not_elem_of_empty _ H)).
  rewrite (bool_decide_eq_false_2 ("--force-attach" ∈ ∅))
    by apply not_elem_of_empty.
  destruct self; reflexivity.
Qed.

(** X15. From GA to BETA: an invocation that GA turns into a request,
    and that does not ask for a regional disk, gives under BETA the same
    request with [forceAttach] added, as long as the instance resolves
    the same way from both namespaces. *)
Theorem beta_sends_the_ga_request_with_forceAttach inv request :
  request ∈ emitted AttachDisk inv →
  (∀ args args',
     parse_args (Args AttachDisk []) inv = ok args →
     parse_args (Args AttachDiskBeta []) inv = ok args' →
     ResolveAsResource args = ResolveAsResource args') →
  operands inv !! "--disk-scope" = None
    ∨ operands inv !! "--disk-scope" = Some "zonal" →
  emitted AttachDiskBeta inv
  = [set_forceAttach request
       (Some (bool_decide ("--force-attach" ∈ switches inv)))].
Proof.
  intros Hin Hres Hs.
  destruct (emitted_inv _ _ _ _ _ _ _ _ Hin)
    as (args & iref & dref & keys & Hp & Hr & Hd & Hk & -> & _).
  destruct (parse_beta_of_ga inv args Hp Hs) as [args' Hp'].
  unfold emitted. rewrite Execute_unfold, Hp'. unfold ok. cbv iota.
  rewrite (Run_parsed _ _ _ _ _ _ _ _ _ Hp').
  rewrite <- (Hres args args' Hp Hp'), Hr. unfold ok. cbv iota.
  destruct (ParseDiskRef_parsed ParseDiskResource AttachDisk inv args iref Hp)
    as (disk & Hdisk & Heq).
  rewrite Heq in Hd. clear Heq.
  destruct (ParseDiskRef_parsed ParseDiskResource AttachDiskBeta inv args' iref Hp')
    as (disk' & Hdisk' & ->).
  assert (disk' = disk) as -> by congruence.
  rewrite (bool_decide_eq_false_2 (_ = Some "regional"))
    by (destruct Hs as [-> | ->]; discriminate).
  rewrite Hd. unfold ok. cbv iota.
  rewrite (FromArgs_parsed _ _ _ _ _ Hp) in Hk.
  rewrite (FromArgs_parsed _ _ _ _ _ Hp').
  rewrite gate_force in *. cbn [track_of negb andb] in *.
  assert (Hkeys :
    match operands inv !! "--csek-key-file" with
    | Some path => ok (Some (ReadKeyFile path))
    | None => ok None
    end = ok keys).
  { destruct (operands inv !! "--csek-key-file"); [|exact Hk].
    destruct (existsb is_rsa _); [discriminate | exact Hk]. }
  rewrite Hkeys. unfold ok. cbv iota zeta. cbn [snd app].
  unfold assembled, set_forceAttach.
  cbn [instance project attachedDisk zone forceAttach].
  rewrite !gate_force.
  rewrite !(bool_decide_eq_false_2 (_ = ALPHA ∧ _))
    by (intros [? _]; discriminate).
  reflexivity.
Qed.

(** X16. From BETA to ALPHA: an invocation that BETA turns into a
    request, and that does not pass [--boot], gives under ALPHA exactly
    the same request, as long as the instance resolves the same way from
    both namespaces. *)
Theorem alpha_without_boot_sends_the_beta_request inv request :
  request ∈ emitted AttachDiskBeta inv →
  (∀ args args',
     parse_args (Args AttachDiskBeta []) inv = ok args →
     parse_args (Args AttachDiskAlpha []) inv = ok args' →
     ResolveAsResource args = ResolveAsResource args') →
  "--boot" ∉ switches inv →
  emitted AttachDiskAlpha inv = [request].
Proof.
  intros Hin Hres Hb.
  destruct (emitted_inv _ _ _ _ _ _ _ _ Hin)
    as (args & iref & dref & keys & Hp & Hr & Hd & Hk & -> & _).
  destruct (parse_alpha_of_beta inv args Hp) as [args' Hp'].
  unfold emitted. rewrite Execute_unfold, Hp'. unfold ok. cbv iota.
  rewrite (Run_parsed _ _ _ _ _ _ _ _ _ Hp').
  rewrite <- (Hres args args' Hp Hp'), Hr. unfold ok. cbv iota.
  destruct (ParseDiskRef_parsed ParseDiskResource AttachDiskBeta inv args iref Hp)
    as (disk & Hdisk & Heq).
  rewrite Heq in Hd. clear Heq.
  destruct (ParseDiskRef_parsed ParseDiskResource AttachDiskAlpha inv args' iref Hp')
    as (disk' & Hdisk' & ->).
  assert (disk' = disk) as -> by congruence.
  rewrite Hd. unfold ok. cbv iota.
  rewrite (FromArgs_parsed _ _ _ _ _ Hp) in Hk.
  rewrite (FromArgs_parsed _ _ _ _ _ Hp').
  rewrite gate_force in *. rewrite Hk. unfold ok. cbv iota zeta.
  cbn [snd app]. unfold assembled. rewrite !gate_force.
  rewrite !(bool_decide_eq_false_2 (_ ∧ "--boot" ∈ switches inv))
    by (intros [_ ?]; contradiction).
  reflexivity.
Qed.

End AcrossTracks.

(** ** The further theorems at concrete invocations *)

Lemma Run_fixed_fields_witness :
  ∃ instance_ref disk_ref attached_disk,
    Sample.ResolveAsResource (Sample.args_of AttachDiskBeta Sample.inv_full)
    = ok instance_ref ∧
    ParseDiskRef Sample.ParseDiskResource AttachDiskBeta
      (Sample.args_of AttachDiskBeta Sample.inv_full) instance_ref
    = ok disk_ref ∧
    instance Sample.request_beta = Some (Name instance_ref) ∧
    project Sample.request_beta = Some (ref_project instance_ref) ∧
    zone Sample.request_beta = Some (ref_zone instance_ref) ∧
    attachedDisk Sample.request_beta = Some attached_disk ∧
    source attached_disk = Some (Sample.SelfLink disk_ref) ∧
    type attached_disk = Some PERSISTENT.
Proof.
  apply (Run_fixed_fields Sample.SelfLink
    Sample.ResolveAsResource Sample.ParseDiskResource Sample.ReadKeyFile
    Sample.Transport AttachDiskBeta
    (Sample.args_of AttachDiskBeta Sample.inv_full) Sample.request_beta).
  vm_compute. left.
Defined.

Lemma Run_mode_witness :
  ∃ attached_disk args_mode,
    attachedDisk Sample.request_beta = Some attached_disk ∧
    Sample.args_of AttachDiskBeta Sample.inv_full !! "mode" = Some args_mode ∧
    (args_mode = VStr "rw" → mode attached_disk = Some READ_WRITE) ∧
    (args_mode ≠ VStr "rw" → mode attached_disk = Some READ_ONLY).
Proof.
  apply (Run_mode_is_rw_or_read_only Sample.SelfLink
    Sample.ResolveAsResource Sample.ParseDiskResource Sample.ReadKeyFile
    Sample.Transport AttachDiskBeta
    (Sample.args_of AttachDiskBeta Sample.inv_full) Sample.request_beta).
  vm_compute. left.
Defined.

Lemma Run_deviceName_witness :
  ∃ attached_disk,
    attachedDisk Sample.request_beta = Some attached_disk ∧
    ((Sample.args_of AttachDiskBeta Sample.inv_full !! "device_name"
      = Some VNone ∧ deviceName attached_disk = None) ∨
     (∃ s, Sample.args_of AttachDiskBeta Sample.inv_full !! "device_name"
           = Some (VStr s) ∧ deviceName attached_disk = Some s)).
Proof.
  apply (Run_deviceName_from_namespace Sample.SelfLink
    Sample.ResolveAsResource Sample.ParseDiskResource Sample.ReadKeyFile
    Sample.Transport AttachDiskBeta
    (Sample.args_of AttachDiskBeta Sample.inv_full) Sample.request_beta).
  vm_compute. left.
Defined.

Lemma Run_boot_witness :
  ∃ attached_disk,
    attachedDisk Sample.request_alpha = Some attached_disk ∧
    boot attached_disk ≠ Some false ∧
    (boot attached_disk = Some true
     ↔ track_of AttachDiskAlpha = ALPHA ∧
       Sample.args_of AttachDiskAlpha Sample.inv_full !! "boot"
       = Some (VBool true)).
Proof.
  apply (Run_boot_is_absent_or_true Sample.SelfLink
    Sample.ResolveAsResource Sample.ParseDiskResource Sample.ReadKeyFile
    Sample.Transport AttachDiskAlpha
    (Sample.args_of AttachDiskAlpha Sample.inv_full) Sample.request_alpha).
  vm_compute. left.
Defined.

Lemma Run_reads_only_its_schema_witness :
  Sample.Run AttachDisk (Sample.args_of AttachDisk Sample.inv_d1) []
  = Sample.Run AttachDisk
      (<["boot" := VBool true]> (Sample.args_of AttachDisk Sample.inv_d1)) [].
Proof.
  apply (Run_reads_only_its_schema Sample.SelfLink
    Sample.ResolveAsResource Sample.ParseDiskResource Sample.ReadKeyFile
    Sample.Transport AttachDisk).
  - reflexivity.
  - intros name Hn. rewrite !elem_of_cons, elem_of_nil in Hn.
    destruct_or! Hn; try contradiction; subst name; vm_compute; reflexivity.
  - intros Hga. destruct (Hga eq_refl).
  - discriminate.
Defined.

Lemma gated_Run_witness :
  Sample.Run AttachDiskBeta (Sample.args_of AttachDisk Sample.inv_d1) []
  = (raise (AttributeError "disk_scope"), []).
Proof.
  apply (gated_Run_needs_gated_schema Sample.SelfLink
    Sample.ResolveAsResource Sample.ParseDiskResource Sample.ReadKeyFile
    Sample.Transport AttachDiskBeta Sample.inv_d1
    (Sample.args_of AttachDisk Sample.inv_d1) Sample.example_instance []).
  - vm_compute. reflexivity.
  - reflexivity.
  - discriminate.
Defined.

Lemma _Args_grows_witness :
  [] `prefix_of` Args AttachDisk [] ∧
  Args AttachDisk [] `sublist_of` Args AttachDiskAlpha [].
Proof.
  apply (_Args_grows_with_support [] false false false true true true);
    intros _; reflexivity.
Defined.

Lemma disk_only_invocation_witness :
  ∃ args, parse_args (Args AttachDiskBeta []) Sample.inv_d1 = ok args ∧
    ∀ instance_ref disk_ref,
      Sample.ResolveAsResource args = ok instance_ref →
      Sample.ParseDiskResource (VStr "d1") (ref_project instance_ref)
        (ref_zone instance_ref) ZONE = ok disk_ref →
      let request :=
        {| instance := Some (Name instance_ref);
           project := Some (ref_project instance_ref);
           attachedDisk := Some
             {| deviceName := None; mode := Some READ_WRITE;
                source := Some (Sample.SelfLink disk_ref);
                type := Some PERSISTENT; diskEncryptionKey := None;
                boot := None |};
           zone := Some (ref_zone instance_ref);
           forceAttach := match track_of AttachDiskBeta with
                          | GA => None
                          | _ => Some false
                          end |} in
      Sample.Execute AttachDiskBeta Sample.inv_d1 []
      = (mapM Sample.Transport [request], [] ++ [request]).
Proof.
  apply (disk_only_invocation Sample.SelfLink
    Sample.ResolveAsResource Sample.ParseDiskResource Sample.ReadKeyFile
    Sample.Transport AttachDiskBeta Sample.inv_d1 "d1" []); reflexivity.
Defined.

Lemma beta_sends_the_ga_request_witness :
  Sample.emitted AttachDiskBeta Sample.inv_d1
  = [set_forceAttach Sample.request_ga
       (Some (bool_decide ("--force-attach" ∈ switches Sample.inv_d1)))].
Proof.
  apply (beta_sends_the_ga_request_with_forceAttach Sample.SelfLink
    Sample.ResolveAsResource Sample.ParseDiskResource Sample.ReadKeyFile
    Sample.Transport Sample.inv_d1 Sample.request_ga).
  - vm_compute. left.
  - intros args args' _ _. reflexivity.
  - left. vm_compute. reflexivity.
Defined.

Lemma alpha_sends_the_beta_request_witness :
  Sample.emitted AttachDiskAlpha Sample.inv_rsa = [Sample.request_beta_rsa].
Proof.
  apply (alpha_without_boot_sends_the_beta_request Sample.SelfLink
    Sample.ResolveAsResource Sample.ParseDiskResource Sample.ReadKeyFile
    Sample.Transport Sample.inv_rsa Sample.request_beta_rsa).
  - vm_compute. left.
  - intros args args' _ _. reflexivity.
  - apply not_elem_of_empty.
Defined.
